(** * Snake (terminal game): a shallow embedding of [snake.py]

    The game logic of [snake.py] is embedded function by function.  The
    snake is the [deque] of the source, head first, as a [list]; [set(snake)]
    is a [gset]; the key table [KEY_TO_DIR] is a [gmap] with string keys;
    Python's [float] is IEEE binary64, which is what Rocq's primitive floats
    are, so the tick scheduler is embedded with [PrimFloat].  The three
    things the program takes from outside (the random generator, the clock,
    the keyboard) are explicit inputs of the model. *)

From Stdlib Require Import ZArith Lia List Ascii String Floats Uint63.
From stdpp Require Import gmap strings list pretty.
Import ListNotations.

Local Open Scope Z_scope.

(* Decimal literals such as 0.12 are rounded to the nearest binary64 value,
   as Python rounds them. *)
Set Warnings "-inexact-float".

(** ** Constants (lines 22-29) *)

Definition Pos : Type := Z * Z.

Definition WIDTH : Z := 30.
Definition HEIGHT : Z := 20.
Definition BASE_TICK : float := 0.12%float.

Definition DIR_UP : Pos := (0, -1).
Definition DIR_DOWN : Pos := (0, 1).
Definition DIR_LEFT : Pos := (-1, 0).
Definition DIR_RIGHT : Pos := (1, 0).

(** The escape character [\x1b], and the three-character ANSI arrow
    sequences built from it. *)
Definition ESC : ascii := ascii_of_nat 27.
Definition ansi (c : ascii) : string := String ESC (String "["%char (String c EmptyString)).

(** [KEY_TO_DIR] (lines 31-48), built entry by entry in the order of the
    source's dict literal. *)
Definition KEY_TO_DIR : gmap string Pos :=
  <["D"%string := DIR_RIGHT]> (
  <["A"%string := DIR_LEFT]> (
  <["S"%string := DIR_DOWN]> (
  <["W"%string := DIR_UP]> (
  <["d"%string := DIR_RIGHT]> (
  <["a"%string := DIR_LEFT]> (
  <["s"%string := DIR_DOWN]> (
  <["w"%string := DIR_UP]> (
  <[ansi "C" := DIR_RIGHT]> (
  <[ansi "D" := DIR_LEFT]> (
  <[ansi "B" := DIR_DOWN]> (
  <[ansi "A" := DIR_UP]> (
  <["M"%string := DIR_RIGHT]> (
  <["K"%string := DIR_LEFT]> (
  <["P"%string := DIR_DOWN]> (
  <["H"%string := DIR_UP]> ∅))))))))))))))).

(** ** [is_opposite] (lines 126-127) *)

Definition is_opposite (a b : Pos) : bool :=
  (a.1 =? - b.1) && (a.2 =? - b.2).

(** ** The random generator

    [random.randint(a, b)] draws an integer of [a..b].  The generator is a
    stream of raw draws; [randint] reduces the next raw draw into the range
    and advances the stream. *)

Definition Rng : Type := nat → Z.

Definition rng_next (g : Rng) : Rng := fun n => g (S n).

Definition randint (a b : Z) (g : Rng) : Z * Rng :=
  (a + (g 0%nat) mod (b - a + 1), rng_next g).

(** ** [place_food] (lines 130-134)

    [while True] has no bound of its own: [fuel] bounds the number of
    candidates tried, and [None] means that the loop is still running when
    the fuel is spent. *)

Fixpoint place_food (fuel : nat) (g : Rng) (snake_set : gset Pos) : option (Pos * Rng) :=
  match fuel with
  | O => None
  | S fuel' =>
      let '(x, g1) := randint 0 (WIDTH - 1) g in
      let '(y, g2) := randint 0 (HEIGHT - 1) g1 in
      let pos := (x, y) in
      if decide (pos ∉ snake_set) then Some (pos, g2)
      else place_food fuel' g2 snake_set
  end.

(** ** The tick interval (line 210)

    [max(0.05, BASE_TICK - score * 0.002)].  Python turns the integer
    [score] into a float before the product, and its two-argument [max]
    keeps the first argument unless the second is strictly greater. *)

Definition float_of_int (n : Z) : float := PrimFloat.of_uint63 (Uint63.of_Z n).

Definition py_max (a b : float) : float := if PrimFloat.ltb a b then b else a.

Definition MIN_TICK : float := 0.05%float.
Definition DECAY : float := 0.002%float.

Definition tick_interval (score : Z) : float :=
  py_max MIN_TICK (PrimFloat.sub BASE_TICK (PrimFloat.mul (float_of_int score) DECAY)).

(** ** The input reader (lines 85-123)

    [Platform] records what the imports at the top of the file found:
    [os.name], whether [msvcrt] was imported, and whether [select]
    (imported together with [termios] and [tty]) was. *)

Record Platform := {
  os_name : string;
  msvcrt : bool;
  select : bool
}.

(** What the calls of one poll answer.  [console] is the Windows console:
    [None] when [kbhit()] is false, otherwise the byte returned by the first
    [getch()] and the byte a second [getch()] returns.

    On the other platforms a poll makes up to three calls of
    [select.select([sys.stdin], [], [], 0)] and three of [sys.stdin.read(1)].
    [ready1], [ready2], [ready3] say whether the first, second and third
    [select] report standard input readable; [char1], [char2], [char3] are
    what the first, second and third [read(1)] return: a character, or
    [None] for the empty string that [read] returns at the end of input.
    An answer is looked at only when the call is made.  The answers are
    inputs of the model, one by one, because [select] looks at the file
    descriptor and [read] at Python's own buffer: after a first [read(1)]
    has taken every pending byte into that buffer, [select] reports nothing
    to read although characters are left.

    A character is an [ascii]; any character outside the key table stands
    for every other one.  A call that raises (a [read] of bytes that do not
    decode, a [select] on a closed file) ends the program with a traceback
    and is no [Keyboard]. *)

Record Keyboard := {
  console : option (ascii * ascii);
  ready1 : bool;
  char1 : option ascii;
  ready2 : bool;
  char2 : option ascii;
  ready3 : bool;
  char3 : option ascii
}.

(** The [str] that [read(1)] returns. *)
Definition read_str (c : option ascii) : string :=
  match c with
  | Some ch => String ch EmptyString
  | None => EmptyString
  end.

(** A key read from the console is [bytes], one from standard input [str]. *)
Inductive RawKey :=
| KBytes (b : ascii)
| KStr (s : string).

Definition read_key_windows (cfg : Platform) (kb : Keyboard) : option RawKey :=
  if negb (msvcrt cfg) then None
  else match console kb with
       | None => None
       | Some (ch, ch') =>
           if bool_decide (ch ∈ [ascii_of_nat 0; ascii_of_nat 224])
           then Some (KBytes ch') else Some (KBytes ch)
       end.

Definition read_key_posix (cfg : Platform) (kb : Keyboard) : option RawKey :=
  if negb (select cfg) then None
  else if negb (ready1 kb) then None
  else
    let ch := read_str (char1 kb) in
    if negb (String.eqb ch (String ESC EmptyString)) then Some (KStr ch)
    else if ready2 kb then
      let ch2 := read_str (char2 kb) in
      if String.eqb ch2 "[" && ready3 kb
      then Some (KStr (ch +:+ ch2 +:+ read_str (char3 kb)))
      else Some (KStr (ch +:+ ch2))
    else Some (KStr ch).

(** [bytes.decode()] of a single byte: UTF-8 accepts it when it is below
    [0x80] and raises [UnicodeDecodeError] otherwise. *)
Definition decode (b : ascii) : option string :=
  if (nat_of_ascii b <? 128)%nat then Some (String b EmptyString) else None.

Definition read_key (cfg : Platform) (kb : Keyboard) : option string :=
  let key :=
    if String.eqb (os_name cfg) "nt" then read_key_windows cfg kb
    else read_key_posix cfg kb in
  match key with
  | None => None
  | Some (KBytes b) => decode b
  | Some (KStr s) => Some s
  end.

(** ** The session state: the local variables of [run_game] *)

Record State := {
  snake : list Pos;
  direction : Pos;
  score : Z;
  food : Pos;
  last_tick : float;
  tick : float
}.

Inductive Reason := Quit | Wall | Self.

(** What a piece of [run_game] comes to: the loop goes on with a state and
    the generator; [return score, reason]; [place_food] still looping when
    the fuel is spent; [IndexError] from [snake[0]] on an empty deque. *)
Inductive Outcome :=
| Running (st : State) (g : Rng)
| Over (final_score : Z) (reason : Reason)
| Spinning
| Raised.

(** Lines 182-187: the quit test and the direction update. *)

Definition QUIT_KEYS : list string := ["q"%string; "Q"%string].

Definition key_is_quit (key : option string) : bool :=
  match key with
  | Some k => bool_decide (k ∈ QUIT_KEYS)
  | None => false
  end.

Definition steer (key : option string) (direction : Pos) : Pos :=
  match key with
  | Some k =>
      match KEY_TO_DIR !! k with
      | Some candidate =>
          if negb (is_opposite candidate direction) then candidate else direction
      | None => direction
      end
  | None => direction
  end.

(** Lines 192-212: one update of the state.  [appendleft] is [cons] and
    [pop] is [removelast]. *)

Definition add_dir (p d : Pos) : Pos := (p.1 + d.1, p.2 + d.2).

Definition out_of_bounds (p : Pos) : bool :=
  (p.1 <? 0) || (p.1 >=? WIDTH) || (p.2 <? 0) || (p.2 >=? HEIGHT).

Definition tick_update (fuel : nat) (g : Rng) (st : State) : Outcome :=
  match snake st with
  | [] => Raised
  | head :: _ =>
      let next_head := add_dir head (direction st) in
      if out_of_bounds next_head then Over (score st) Wall
      else if bool_decide (next_head ∈ snake st) then Over (score st) Self
      else
        let snake1 := next_head :: snake st in
        if bool_decide (next_head = food st) then
          let score1 := score st + 1 in
          match place_food fuel g (list_to_set snake1) with
          | None => Spinning
          | Some (food1, g1) =>
              Running {| snake := snake1; direction := direction st;
                         score := score1; food := food1;
                         last_tick := last_tick st;
                         tick := tick_interval score1 |} g1
          end
        else
          Running {| snake := removelast snake1; direction := direction st;
                     score := score st; food := food st;
                     last_tick := last_tick st; tick := tick st |} g
  end.

(** Lines 181-215: one iteration of the loop.  [render] and [time.sleep]
    change no variable of the session and are left out. *)

Record Input := {
  keyboard : Keyboard;
  now : float
}.

Definition loop_iter (cfg : Platform) (fuel : nat) (inp : Input) (g : Rng) (st : State)
  : Outcome :=
  let key := read_key cfg (keyboard inp) in
  if key_is_quit key then Over (score st) Quit
  else
    let direction1 := steer key (direction st) in
    if PrimFloat.leb (tick st) (PrimFloat.sub (now inp) (last_tick st)) then
      tick_update fuel g {| snake := snake st; direction := direction1;
                            score := score st; food := food st;
                            last_tick := now inp; tick := tick st |}
    else
      Running {| snake := snake st; direction := direction1;
                 score := score st; food := food st;
                 last_tick := last_tick st; tick := tick st |} g.

(** Lines 163-174: the start of a session. *)

Definition initial_snake : list Pos :=
  let start_x := WIDTH `div` 2 in
  let start_y := HEIGHT `div` 2 in
  [(start_x, start_y); (start_x - 1, start_y); (start_x - 2, start_y)].

Definition start_game (fuel : nat) (g : Rng) (t0 : float) : Outcome :=
  match place_food fuel g (list_to_set initial_snake) with
  | None => Spinning
  | Some (food0, g1) =>
      Running {| snake := initial_snake; direction := DIR_RIGHT; score := 0;
                 food := food0; last_tick := t0; tick := BASE_TICK |} g1
  end.

(** The loop of [run_game], one [Input] for each iteration.  When the
    inputs end while the session runs, the result is the state reached. *)

Fixpoint game_loop (cfg : Platform) (fuel : nat) (inputs : list Input) (o : Outcome)
  : Outcome :=
  match inputs, o with
  | inp :: rest, Running st g => game_loop cfg fuel rest (loop_iter cfg fuel inp g st)
  | _, _ => o
  end.

Definition run_game (cfg : Platform) (fuel : nat) (g : Rng) (t0 : float)
  (inputs : list Input) : Outcome :=
  game_loop cfg fuel inputs (start_game fuel g t0).

(** ** [main] (lines 220-235)

    What the user sees of a run of [main]: the lines printed, the sessions
    played with their results, and the play-again questions.  Each session
    has its own environment: the fuel, the random draws, the clock at its
    start, the inputs of its loop, and the answer to the play-again prompt
    as [.strip().lower()] leaves it. *)

Record SessionEnv := {
  env_fuel : nat;
  env_rng : Rng;
  env_t0 : float;
  env_inputs : list Input;
  env_choice : string
}.

Inductive Event :=
| Printed (line : string)
| Session (result : Outcome)
| Asked (prompt : string) (choice : string).

Definition reason_str (r : Reason) : string :=
  match r with
  | Quit => "quit"
  | Wall => "wall"
  | Self => "self"
  end.

Definition DIAGNOSTIC : string :=
  "This game requires msvcrt (Windows) for input handling.".

Fixpoint play (cfg : Platform) (envs : list SessionEnv) : list Event :=
  match envs with
  | [] => []
  | env :: rest =>
      let result :=
        run_game cfg (env_fuel env) (env_rng env) (env_t0 env) (env_inputs env) in
      Session result ::
      match result with
      | Over final reason =>
          Printed "" ::
          match reason with
          | Quit => [Printed ("Quit. Final score: " +:+ pretty final)]
          | _ =>
              Printed ("Game over (" +:+ reason_str reason +:+ "). Final score: "
                       +:+ pretty final)
              :: Asked "Play again? (y/n): " (env_choice env)
              :: (if bool_decide (env_choice env ∈ ["y"%string; "yes"%string])
                  then play cfg rest else [])
          end
      | _ => []
      end
  end.

Definition main (cfg : Platform) (envs : list SessionEnv) : list Event :=
  if String.eqb (os_name cfg) "nt" && negb (msvcrt cfg)
  then [Printed DIAGNOSTIC]
  else play cfg envs.

(** ** Vocabulary of the statements *)

Definition in_grid (p : Pos) : Prop :=
  0 ≤ p.1 < WIDTH ∧ 0 ≤ p.2 < HEIGHT.

Definition is_dir (d : Pos) : Prop :=
  d = DIR_UP ∨ d = DIR_DOWN ∨ d = DIR_LEFT ∨ d = DIR_RIGHT.

Definition reverse (d : Pos) : Pos := (- d.1, - d.2).

Definition perpendicular (a b : Pos) : Prop := a.1 * b.1 + a.2 * b.2 = 0.

(** The key table as the specification lists it: the letters in both
    cases, the Windows arrow codes and the ANSI arrow sequences. *)
Definition spec_key_table : list (string * Pos) :=
  [("w"%string, DIR_UP); ("W"%string, DIR_UP);
   ("s"%string, DIR_DOWN); ("S"%string, DIR_DOWN);
   ("a"%string, DIR_LEFT); ("A"%string, DIR_LEFT);
   ("d"%string, DIR_RIGHT); ("D"%string, DIR_RIGHT);
   ("H"%string, DIR_UP); ("P"%string, DIR_DOWN);
   ("K"%string, DIR_LEFT); ("M"%string, DIR_RIGHT);
   (ansi "A", DIR_UP); (ansi "B", DIR_DOWN);
   (ansi "D", DIR_LEFT); (ansi "C", DIR_RIGHT)].

(** All the cells of the grid, column by column. *)
Definition grid_cells : list Pos :=
  x ← seqZ 0 WIDTH; y ← seqZ 0 HEIGHT; [(x, y)].

(** Float comparison [a <= b] as a proposition. *)
Definition fle (a b : float) : Prop := PrimFloat.leb a b = true.

(** What holds of every state of a session (see [run_game_inv]). *)
Record session_inv (st : State) : Prop := {
  inv_grid : Forall in_grid (snake st);
  inv_nodup : NoDup (snake st);
  inv_length : Z.of_nat (length (snake st)) = 3 + score st;
  inv_score : 0 ≤ score st;
  inv_dir : is_dir (direction st);
  inv_tick : tick st = tick_interval (score st);
  inv_food : in_grid (food st) ∧ food st ∉ snake st
}.

(** The highest score of a running session: the snake of [3 + score] cells
    and the food are distinct cells of the grid. *)
Definition MAX_SCORE : Z := WIDTH * HEIGHT - 4.

(** The claim of the specification about platforms with no way to read a
    key without blocking, as it is worded: neither [msvcrt] nor [select]. *)
Definition no_input_mechanism (cfg : Platform) : Prop :=
  msvcrt cfg = false ∧ select cfg = false.

Definition starts_session (trace : list Event) : Prop :=
  ∃ result, Session result ∈ trace.

(** The number of iterations of a run whose update eats the food. *)
Definition eats (cfg : Platform) (inp : Input) (st : State) : bool :=
  let key := read_key cfg (keyboard inp) in
  negb (key_is_quit key)
  && PrimFloat.leb (tick st) (PrimFloat.sub (now inp) (last_tick st))
  && match snake st with
     | [] => false
     | head :: _ =>
         let next_head := add_dir head (steer key (direction st)) in
         negb (out_of_bounds next_head)
         && negb (bool_decide (next_head ∈ snake st))
         && bool_decide (next_head = food st)
     end.

Fixpoint eaten (cfg : Platform) (fuel : nat) (inputs : list Input) (o : Outcome) : Z :=
  match inputs, o with
  | inp :: rest, Running st g =>
      (if eats cfg inp st then 1 else 0)
      + eaten cfg fuel rest (loop_iter cfg fuel inp g st)
  | _, _ => 0
  end.

#[global] Instance in_grid_dec (p : Pos) : Decision (in_grid p).
Proof. unfold in_grid. apply _. Defined.

#[global] Instance fle_dec (a b : float) : Decision (fle a b).
Proof. unfold fle. apply _. Defined.

(** ** Concrete sessions used to exercise the statements *)

(** A generator that always draws 0: the food lands on (0,0). *)
Definition zero_rng : Rng := λ _, 0.

(** A generator whose first two draws put the food on (16,10), just in
    front of the initial snake, and the next two on (3,4). *)
Definition feeding_rng : Rng :=
  λ n, match n with
       | 0%nat => 16 | 1%nat => 10 | 2%nat => 3 | 3%nat => 4 | _ => 0
       end.

(** Nothing to read: no key hit, standard input not readable. *)
Definition no_keys : Keyboard :=
  {| console := None; ready1 := false; char1 := None;
     ready2 := false; char2 := None; ready3 := false; char3 := None |}.

(** One character typed on a terminal: readable, read, and nothing more. *)
Definition typed (c : ascii) : Keyboard :=
  {| console := None; ready1 := true; char1 := Some c;
     ready2 := false; char2 := None; ready3 := false; char3 := None |}.

(** A session in which nothing is typed, one poll a second for fifteen
    seconds. *)
Definition idle_inputs : list Input :=
  (λ k, {| keyboard := no_keys; now := float_of_int k |}) <$> seqZ 1 15.

Definition posix_cfg : Platform :=
  {| os_name := "posix"; msvcrt := false; select := true |}.

Definition windows_cfg : Platform :=
  {| os_name := "nt"; msvcrt := true; select := true |}.

(** A non-Windows platform on which [import select] failed. *)
Definition bare_posix_cfg : Platform :=
  {| os_name := "posix"; msvcrt := false; select := false |}.

(** Windows without [msvcrt]. *)
Definition bare_windows_cfg : Platform :=
  {| os_name := "nt"; msvcrt := false; select := false |}.

(** The state in which every session with [zero_rng] starts. *)
Definition start_state : State :=
  {| snake := [(15, 10); (14, 10); (13, 10)]; direction := DIR_RIGHT; score := 0;
     food := (0, 0); last_tick := 0%float; tick := BASE_TICK |}.

(** [start_state] after one update. *)
Definition moved_state : State :=
  {| snake := [(16, 10); (15, 10); (14, 10)]; direction := DIR_RIGHT; score := 0;
     food := (0, 0); last_tick := 0%float; tick := BASE_TICK |}.

(** A snake of four cells curled in a square, about to move onto its tail. *)
Definition curled_state : State :=
  {| snake := [(1, 0); (0, 0); (0, 1); (1, 1)]; direction := DIR_DOWN; score := 1;
     food := (5, 5); last_tick := 0%float; tick := tick_interval 1 |}.

(** The state after the first update of a session with [feeding_rng], one
    second after its start: the food of (16,10) has been eaten. *)
Definition fed_state : State :=
  {| snake := [(16, 10); (15, 10); (14, 10); (13, 10)]; direction := DIR_RIGHT;
     score := 1; food := (3, 4); last_tick := 1%float; tick := tick_interval 1 |}.

(** A session in which [q] waits on standard input at every poll, one poll
    a second for fifteen seconds, and the answer to the prompt is [n]. *)
Definition blind_inputs : list Input :=
  (λ k, {| keyboard := typed "q"; now := float_of_int k |}) <$> seqZ 1 15.

Definition blind_env : SessionEnv :=
  {| env_fuel := 1; env_rng := zero_rng; env_t0 := 0%float;
     env_inputs := blind_inputs; env_choice := "n" |}.

(** A snake that winds through every cell of the grid but (0,0): row 0
    from (1,0) to (29,0), row 1 back from (29,1) to (0,1), and so on.  The
    head is (1,0), and the food is on the last free cell. *)
Definition winding_row (y : Z) : list Pos :=
  let row := (λ x, (x, y)) <$> seqZ 0 WIDTH in
  if Z.even y then row else rev row.

Definition winding_snake : list Pos := tail (seqZ 0 HEIGHT ≫= winding_row).

Definition crowded_state : State :=
  {| snake := winding_snake; direction := DIR_LEFT; score := 596;
     food := (0, 0); last_tick := 0%float; tick := tick_interval 596 |}.

(** ** [render] (lines 137-159)

    The text of one frame.  [snake[0]] raises [IndexError] on an empty
    deque: [None].  ["#" * n] is [str_mul], ["\n".join] is [String.concat]
    with the newline, and the frame is written after the cursor-home
    sequence. *)

Definition NL : string := String (ascii_of_nat 10) EmptyString.

Definition HOME : string := String ESC "[H".

Definition str_mul (s : string) (n : Z) : string :=
  Nat.iter (Z.to_nat n) (String.append s) EmptyString.

Definition glyph (head : Pos) (snake_set : gset Pos) (food : Pos) (pos : Pos) : ascii :=
  if bool_decide (pos = head) then "O"%char
  else if bool_decide (pos ∈ snake_set) then "o"%char
  else if bool_decide (pos = food) then "*"%char
  else " "%char.

Definition render_line (head : Pos) (snake_set : gset Pos) (food : Pos) (y : Z) : string :=
  string_of_list_ascii
    (["#"%char] ++ ((λ x, glyph head snake_set food (x, y)) <$> seqZ 0 WIDTH)
     ++ ["#"%char]).

Definition render_rows (snake : list Pos) (food : Pos) (score : Z) : option (list string) :=
  match snake with
  | [] => None
  | head :: _ =>
      let snake_set : gset Pos := list_to_set snake in
      Some ([str_mul "#" (WIDTH + 2)]
            ++ (render_line head snake_set food <$> seqZ 0 HEIGHT)
            ++ [str_mul "#" (WIDTH + 2)]
            ++ ["Score: " +:+ pretty score +:+ "  (WASD / arrows, Q to quit)"])
  end.

Definition render (snake : list Pos) (food : Pos) (score : Z) : option string :=
  rows ← render_rows snake food score;
  Some (HOME +:+ String.concat NL rows).

(** ** More vocabulary *)

(** Two cells next to each other on the grid. *)
Definition adjacent (a b : Pos) : Prop := is_dir (a.1 - b.1, a.2 - b.2).

(** Every segment of the snake is next to the one after it. *)
Fixpoint contiguous (l : list Pos) : Prop :=
  match l with
  | a :: rest => match rest with
                 | b :: _ => adjacent a b ∧ contiguous rest
                 | [] => True
                 end
  | [] => True
  end.

(** The [n]-th cell that [place_food] tries on the draws of [g]. *)
Definition candidate (g : Rng) (n : nat) : Pos :=
  (g (2 * n)%nat mod WIDTH, g (2 * n + 1)%nat mod HEIGHT).

(** The number of readings of the clock, in a session whose tick interval
    stays [tick], at which an update is due: the reading is at least [tick]
    after the last update, and becomes the time of the last update. *)
Fixpoint updates_due (tick last : float) (nows : list float) : nat :=
  match nows with
  | [] => 0
  | now :: rest =>
      if PrimFloat.leb tick (PrimFloat.sub now last)
      then S (updates_due tick now rest)
      else updates_due tick last rest
  end.

(** The number of iterations of a run in which the state is updated: the
    key read is no quit key and the tick interval has elapsed. *)
Definition due (cfg : Platform) (inp : Input) (st : State) : bool :=
  negb (key_is_quit (read_key cfg (keyboard inp)))
  && PrimFloat.leb (tick st) (PrimFloat.sub (now inp) (last_tick st)).

Fixpoint updates (cfg : Platform) (fuel : nat) (inputs : list Input) (o : Outcome) : Z :=
  match inputs, o with
  | inp :: rest, Running st g =>
      (if due cfg inp st then 1 else 0)
      + updates cfg fuel rest (loop_iter cfg fuel inp g st)
  | _, _ => 0
  end.

Definition is_raised (o : Outcome) : bool :=
  match o with
  | Raised => true
  | _ => false
  end.

Definition is_running (o : Outcome) : bool :=
  match o with
  | Running _ _ => true
  | _ => false
  end.

Fixpoint sessions_played (trace : list Event) : nat :=
  match trace with
  | [] => 0
  | Session _ :: rest => S (sessions_played rest)
  | _ :: rest => sessions_played rest
  end.

Example key_w : KEY_TO_DIR !! "w"%string = Some DIR_UP.
Proof. vm_compute. reflexivity. Qed.

Example key_ansi : KEY_TO_DIR !! ansi "A" = Some DIR_UP.
Proof. vm_compute. reflexivity. Qed.

Example key_q : KEY_TO_DIR !! "q"%string = None.
Proof. vm_compute. reflexivity. Qed.

Example tick0 : tick_interval 0 = BASE_TICK.
Proof. vm_compute. reflexivity. Qed.

Example tick35 : tick_interval 36 = MIN_TICK.
Proof. vm_compute. reflexivity. Qed.

(** ** The grid *)

Lemma elem_of_grid_cells (p : Pos) : p ∈ grid_cells ↔ in_grid p.
Proof.
  unfold grid_cells, in_grid. rewrite list_elem_of_bind. split.
  - intros (x' & Hy & Hx). apply elem_of_seqZ in Hx.
    apply list_elem_of_bind in Hy as (y' & Hp & Hy).
    apply elem_of_seqZ in Hy. apply list_elem_of_singleton in Hp.
    subst p; simpl. lia.
  - intros [Hx Hy]. exists p.1. split.
    + apply list_elem_of_bind. exists p.2. split.
      * apply list_elem_of_singleton. by destruct p.
      * apply elem_of_seqZ. lia.
    + apply elem_of_seqZ. lia.
Qed.

Lemma grid_cells_length : length grid_cells = 600%nat.
Proof. vm_compute. reflexivity. Qed.

Lemma grid_cells_NoDup : NoDup grid_cells.
Proof. apply (bool_decide_unpack _). vm_compute. reflexivity. Qed.

(** A list of distinct grid cells has at most [WIDTH * HEIGHT] elements. *)
Lemma distinct_cells_bound (l : list Pos) :
  NoDup l → Forall in_grid l → Z.of_nat (length l) ≤ WIDTH * HEIGHT.
Proof.
  intros Hnd Hin.
  assert (Hsub : l ⊆+ grid_cells).
  { apply NoDup_submseteq; [done|]. intros p Hp. apply elem_of_grid_cells.
    rewrite Forall_forall in Hin. by apply Hin. }
  apply submseteq_length in Hsub. rewrite grid_cells_length in Hsub.
  unfold WIDTH, HEIGHT. lia.
Qed.

Lemma in_grid_bounds (p : Pos) : in_grid p ↔ out_of_bounds p = false.
Proof.
  unfold in_grid, out_of_bounds. destruct p as [x y]; simpl.
  rewrite !orb_false_iff, !Z.ltb_ge, !Z.geb_leb, !Z.leb_gt. lia.
Qed.

(** ** [place_food] *)

Lemma randint_range (a b : Z) (g : Rng) : a ≤ b → a ≤ (randint a b g).1 ≤ b.
Proof.
  intros Hab. unfold randint; simpl.
  pose proof (Z.mod_pos_bound (g 0%nat) (b - a + 1)). lia.
Qed.

Lemma place_food_sound (fuel : nat) (g g' : Rng) (s : gset Pos) (pos : Pos) :
  place_food fuel g s = Some (pos, g') → in_grid pos ∧ pos ∉ s.
Proof.
  revert g. induction fuel as [|fuel IH]; intros g; simpl; [done|].
  case_decide as Hfree.
  - intros [= <- _]. split; [|done].
    unfold in_grid, WIDTH, HEIGHT; simpl.
    pose proof (Z.mod_pos_bound (g 0%nat) (30 - 1 - 0 + 1)).
    pose proof (Z.mod_pos_bound (rng_next g 0%nat) (20 - 1 - 0 + 1)). lia.
  - apply IH.
Qed.

Lemma place_food_full (fuel : nat) (g : Rng) (s : gset Pos) :
  (∀ p, in_grid p → p ∈ s) → place_food fuel g s = None.
Proof.
  intros Hfull. revert g. induction fuel as [|fuel IH]; intros g; simpl; [done|].
  case_decide as Hfree; [|apply IH].
  exfalso. apply Hfree, Hfull.
  unfold in_grid, WIDTH, HEIGHT; simpl.
  pose proof (Z.mod_pos_bound (g 0%nat) (30 - 1 - 0 + 1)).
  pose proof (Z.mod_pos_bound (rng_next g 0%nat) (20 - 1 - 0 + 1)). lia.
Qed.

(** A generator whose draws alternate between the two coordinates of [p]. *)
Lemma place_food_hits (p : Pos) (s : gset Pos) :
  in_grid p → p ∉ s →
  ∃ g', place_food 1 (λ n, if Nat.even n then p.1 else p.2) s = Some (p, g').
Proof.
  intros [Hx Hy] Hfree. destruct p as [x y]; simpl in *.
  unfold WIDTH, HEIGHT in *.
  assert (Hxm : 0 + x mod (30 - 1 - 0 + 1) = x) by (rewrite Z.mod_small; lia).
  assert (Hym : 0 + y mod (20 - 1 - 0 + 1) = y) by (rewrite Z.mod_small; lia).
  unfold randint, rng_next; simpl. rewrite Hxm, Hym.
  rewrite decide_True by done. eauto.
Qed.

(** More fuel does not change a result already there. *)
Lemma place_food_more_fuel (fuel extra : nat) (g : Rng) (s : gset Pos) r :
  place_food fuel g s = Some r → place_food (fuel + extra) g s = Some r.
Proof.
  revert g. induction fuel as [|fuel IH]; intros g; simpl; [done|].
  case_decide; [done|]. apply IH.
Qed.

(** A set that misses a grid cell: pigeonhole on the size. *)
Lemma free_cell_exists (s : gset Pos) :
  Z.of_nat (size s) ≤ WIDTH * HEIGHT - 1 → ∃ p, in_grid p ∧ p ∉ s.
Proof.
  intros Hsize.
  destruct (decide (Forall (λ p, p ∈ s) grid_cells)) as [Hall|Hex].
  - exfalso.
    assert (Hsub : grid_cells ⊆+ elements s).
    { apply NoDup_submseteq; [apply grid_cells_NoDup|].
      intros p Hp. apply elem_of_elements. rewrite Forall_forall in Hall. by apply Hall. }
    apply submseteq_length in Hsub. rewrite grid_cells_length in Hsub.
    unfold size, set_size in Hsize; simpl in Hsize.
    unfold WIDTH, HEIGHT in Hsize. lia.
  - apply not_Forall_Exists in Hex; [|intros ?; apply _].
    apply Exists_exists in Hex as (p & Hp & Hfree).
    exists p. split; [by apply elem_of_grid_cells|done].
Qed.

(** ** [pop] on the deque *)

Lemma removelast_cons {A} (x y : A) (l : list A) :
  removelast (x :: y :: l) = x :: removelast (y :: l).
Proof. reflexivity. Qed.

Lemma removelast_sublist {A} (l : list A) : removelast l `sublist_of` l.
Proof. rewrite removelast_firstn_len. apply sublist_take. Qed.

Lemma removelast_length {A} (l : list A) :
  length (removelast l) = Nat.pred (length l).
Proof. rewrite removelast_firstn_len, length_take. lia. Qed.

Lemma removelast_lookup {A} (l : list A) (i : nat) :
  (S i < length l)%nat → removelast l !! i = l !! i.
Proof.
  intros Hi. rewrite removelast_firstn_len. apply lookup_take_lt. lia.
Qed.

(** ** One update *)

(** The two ways in which an update lets the session go on. *)
Lemma tick_update_running (fuel : nat) (g g' : Rng) (st st' : State) :
  tick_update fuel g st = Running st' g' →
  ∃ head body,
    snake st = head :: body ∧
    (let next_head := add_dir head (direction st) in
     in_grid next_head ∧ (next_head ∉ snake st) ∧
    ((next_head = food st ∧
      place_food fuel g (list_to_set (next_head :: snake st)) = Some (food st', g') ∧
      st' = {| snake := next_head :: snake st; direction := direction st;
               score := score st + 1; food := food st';
               last_tick := last_tick st; tick := tick_interval (score st + 1) |})
     ∨
     (next_head ≠ food st ∧ g' = g ∧
      st' = {| snake := next_head :: removelast (snake st); direction := direction st;
               score := score st; food := food st;
               last_tick := last_tick st; tick := tick st |}))).
Proof.
  unfold tick_update. destruct (snake st) as [|head body] eqn:Hsnake; [done|].
  destruct (out_of_bounds _) eqn:Hout; [done|].
  case_bool_decide as Hself; [done|].
  intros Hrun. exists head, body. split; [done|]. simpl.
  split; [by apply in_grid_bounds|]. split; [done|].
  case_bool_decide as Heat.
  - left. split; [done|].
    destruct (place_food _ _ _) as [[food1 g1]|] eqn:Hfood; [|done].
    by inversion Hrun; subst.
  - right. split; [done|]. by inversion Hrun; subst.
Qed.

Lemma session_inv_tick (fuel : nat) (g g' : Rng) (st st' : State) :
  session_inv st → tick_update fuel g st = Running st' g' → session_inv st'.
Proof.
  intros [Hgrid Hnd Hlen Hsc Hdir Htick [Hfg Hfs]] Hrun.
  apply tick_update_running in Hrun as (head & body & Hsnake & Hin & Hnew & Hcase).
  destruct Hcase as [(Heat & Hfood & ->)|(Hne & -> & ->)].
  - apply place_food_sound in Hfood as [Hfg' Hfs'].
    rewrite elem_of_list_to_set in Hfs'.
    constructor; simpl; try done.
    + by constructor.
    + by constructor.
    + rewrite Nat2Z.inj_succ. lia.
    + lia.
  - assert (Hsub : removelast (snake st) `sublist_of` snake st)
      by apply removelast_sublist.
    assert (Hmem : ∀ p, p ∈ removelast (snake st) → p ∈ snake st)
      by (intros p Hp; by eapply elem_of_sublist).
    constructor; simpl; try done.
    + constructor; [done|]. rewrite Forall_forall in Hgrid |- *. auto.
    + constructor; [|by eapply sublist_NoDup]. auto.
    + rewrite removelast_length, Hsnake in *. simpl in *. lia.
    + split; [done|]. intros [Heq|Hp]%elem_of_cons; auto.
Qed.

(** ** The key table and the direction *)

Lemma KEY_TO_DIR_keys (key : string) (d : Pos) :
  KEY_TO_DIR !! key = Some d ↔ (key, d) ∈ spec_key_table.
Proof.
  split.
  - unfold KEY_TO_DIR. intros Hlook.
    repeat (apply lookup_insert_Some in Hlook as [[<- <-]|[_ Hlook]];
            [unfold spec_key_table; set_solver|]).
    by rewrite lookup_empty in Hlook.
  - unfold spec_key_table. intros Hk.
    repeat (apply elem_of_cons in Hk as [[= -> ->]|Hk]; [by vm_compute|]).
    by apply elem_of_nil in Hk.
Qed.

Lemma KEY_TO_DIR_is_dir (key : string) (d : Pos) :
  KEY_TO_DIR !! key = Some d → is_dir d.
Proof.
  intros Hk%KEY_TO_DIR_keys. unfold is_dir, spec_key_table in *.
  repeat (apply elem_of_cons in Hk as [[= _ ->]|Hk]; [tauto|]).
  by apply elem_of_nil in Hk.
Qed.

Lemma steer_is_dir (key : option string) (d : Pos) : is_dir d → is_dir (steer key d).
Proof.
  intros Hd. unfold steer. destruct key as [k|]; [|done].
  destruct (KEY_TO_DIR !! k) as [c|] eqn:Hk; [|done].
  destruct (negb _); [|done]. by eapply KEY_TO_DIR_is_dir.
Qed.

(** ** The invariant of a session *)

Lemma session_inv_loop_iter cfg fuel inp (g g' : Rng) (st st' : State) :
  session_inv st → loop_iter cfg fuel inp g st = Running st' g' → session_inv st'.
Proof.
  intros Hinv. unfold loop_iter.
  destruct (key_is_quit _); [done|].
  assert (Hsteer : session_inv
            {| snake := snake st;
               direction := steer (read_key cfg (keyboard inp)) (direction st);
               score := score st; food := food st;
               last_tick := last_tick st; tick := tick st |}).
  { destruct Hinv. constructor; simpl; try done. by apply steer_is_dir. }
  destruct (PrimFloat.leb _ _).
  - apply session_inv_tick. destruct Hsteer. by constructor.
  - by intros [= <- _].
Qed.

Lemma session_inv_start (fuel : nat) (g g' : Rng) (t0 : float) (st : State) :
  start_game fuel g t0 = Running st g' → session_inv st.
Proof.
  unfold start_game.
  destruct (place_food _ _ _) as [[food0 g1]|] eqn:Hfood; [|done].
  intros [= <- _]. apply place_food_sound in Hfood as [Hfg Hfs].
  rewrite elem_of_list_to_set in Hfs.
  constructor; simpl; try done.
  - unfold initial_snake, in_grid, WIDTH, HEIGHT.
    repeat constructor; vm_compute; congruence.
  - apply (bool_decide_unpack _). vm_compute. reflexivity.
  - unfold is_dir. tauto.
Qed.

Lemma session_inv_game_loop cfg fuel inputs (g g' : Rng) (st st' : State) :
  session_inv st →
  game_loop cfg fuel inputs (Running st g) = Running st' g' → session_inv st'.
Proof.
  revert st g. induction inputs as [|inp rest IH]; intros st g Hinv; simpl.
  - by intros [= <- _].
  - destruct (loop_iter cfg fuel inp g st) as [st1 g1| | |] eqn:Hiter;
      try (destruct rest; done).
    apply IH. by eapply session_inv_loop_iter.
Qed.

Lemma run_game_inv cfg fuel (g g' : Rng) t0 inputs (st : State) :
  run_game cfg fuel g t0 inputs = Running st g' → session_inv st.
Proof.
  unfold run_game.
  destruct (start_game fuel g t0) as [st0 g0| | |] eqn:Hstart;
    try (destruct inputs; done).
  intros Hloop. eapply session_inv_game_loop; [|done].
  by eapply session_inv_start.
Qed.

(** The snake and the food are distinct cells of the grid, so the score of
    a running session stays below [WIDTH * HEIGHT - 3]. *)
Lemma session_inv_score (st : State) :
  session_inv st → 0 ≤ score st ≤ WIDTH * HEIGHT - 4.
Proof.
  intros [Hgrid Hnd Hlen Hsc _ _ [Hfg Hfs]].
  assert (Hb : Z.of_nat (length (food st :: snake st)) ≤ WIDTH * HEIGHT).
  { apply distinct_cells_bound; by constructor. }
  simpl length in Hb. rewrite Nat2Z.inj_succ in Hb. lia.
Qed.

(** ** Collision with the snake's own body *)

(** C1: in an update, when the next head (head plus direction) is a cell of
    the snake as it is before the update, the session ends with [Self]; the
    cell of the tail counts too, also when the update would not eat and the
    tail would leave that cell.  The snake's cells are grid cells, as they
    are in every state of a session ([run_game_inv]). *)
Theorem self_collision_ends_session
    (fuel : nat) (g : Rng) (st : State) (head : Pos) (body : list Pos) :
  snake st = head :: body →
  Forall in_grid (snake st) →
  (add_dir head (direction st) ∈ snake st →
   tick_update fuel g st = Over (score st) Self) ∧
  (last (snake st) = Some (add_dir head (direction st)) →
   add_dir head (direction st) ≠ food st →
   tick_update fuel g st = Over (score st) Self).
Proof.
  intros Hsnake Hgrid.
  assert (Hself : add_dir head (direction st) ∈ snake st →
                  tick_update fuel g st = Over (score st) Self).
  { intros Hmem. unfold tick_update. rewrite Hsnake.
    rewrite Forall_forall in Hgrid.
    assert (Hin : out_of_bounds (add_dir head (direction st)) = false)
      by (apply in_grid_bounds, Hgrid, Hmem).
    rewrite Hin, <- Hsnake. by rewrite bool_decide_eq_true_2. }
  split; [done|]. intros Hlast _. by apply Hself, last_Some_elem_of.
Qed.

Lemma self_collision_ends_session_witness :
  last (snake curled_state) = Some (1, 1) ∧
  tick_update 0 zero_rng curled_state = Over 1 Self.
Proof.
  split; [reflexivity|].
  apply (self_collision_ends_session 0 zero_rng curled_state (1, 0)
           [(0, 0); (0, 1); (1, 1)] eq_refl).
  - apply (bool_decide_unpack _). vm_compute. reflexivity.
  - reflexivity.
  - intros [=].
Defined.

(** ** The first session, straight to the right wall *)

Lemma tick_right (fuel : nat) (g : Rng) (st : State) (x : Z) :
  snake st = [(x, 10); (x - 1, 10); (x - 2, 10)] →
  direction st = DIR_RIGHT →
  0 ≤ x + 1 < WIDTH →
  food st ≠ (x + 1, 10) →
  tick_update fuel g st =
    Running {| snake := [(x + 1, 10); (x, 10); (x - 1, 10)]; direction := DIR_RIGHT;
               score := score st; food := food st;
               last_tick := last_tick st; tick := tick st |} g.
Proof.
  intros Hsnake Hdir Hx Hfood. unfold tick_update. rewrite Hsnake, Hdir.
  unfold add_dir, DIR_RIGHT; simpl fst; simpl snd. rewrite Z.add_0_r.
  assert (Hin : out_of_bounds (x + 1, 10) = false).
  { apply in_grid_bounds. unfold in_grid, HEIGHT; simpl. lia. }
  rewrite Hin. rewrite bool_decide_eq_false_2.
  2:{ rewrite !elem_of_cons, elem_of_nil. intros [[=]|[[=]|[[=]|[]]]]; lia. }
  rewrite bool_decide_eq_false_2 by congruence. reflexivity.
Qed.

Lemma tick_wall_right (fuel : nat) (g : Rng) (st : State) (x : Z) (rest : list Pos) :
  snake st = (x, 10) :: rest → direction st = DIR_RIGHT → WIDTH ≤ x + 1 →
  tick_update fuel g st = Over (score st) Wall.
Proof.
  intros Hsnake Hdir Hx. unfold tick_update. rewrite Hsnake, Hdir.
  assert (Hout : out_of_bounds (add_dir (x, 10) DIR_RIGHT) = true).
  { unfold out_of_bounds, add_dir, DIR_RIGHT. simpl.
    replace (x + 1 >=? WIDTH) with true by (symmetry; rewrite Z.geb_leb; lia).
    by rewrite orb_true_r. }
  by rewrite Hout.
Qed.

(** A session in which no key is read, with the snake straight on line 10
    and heading right: each reading of the clock at which an update is due
    moves it one cell, until the head would leave the grid. *)
Lemma straight_loop cfg (fuel : nat) (g : Rng) (inputs : list Input) :
  ∀ (st : State) (x : Z),
    snake st = [(x, 10); (x - 1, 10); (x - 2, 10)] →
    direction st = DIR_RIGHT →
    0 ≤ x < WIDTH →
    (∀ x', x < x' < WIDTH → food st ≠ (x', 10)) →
    Forall (λ inp, read_key cfg (keyboard inp) = None) inputs →
    (x + Z.of_nat (updates_due (tick st) (last_tick st) (now <$> inputs)) < WIDTH →
     ∃ st', game_loop cfg fuel inputs (Running st g) = Running st' g ∧
            snake st' =
              [(x + Z.of_nat (updates_due (tick st) (last_tick st) (now <$> inputs)), 10);
               (x + Z.of_nat (updates_due (tick st) (last_tick st) (now <$> inputs)) - 1, 10);
               (x + Z.of_nat (updates_due (tick st) (last_tick st) (now <$> inputs)) - 2, 10)] ∧
            direction st' = DIR_RIGHT ∧ score st' = score st) ∧
    (WIDTH ≤ x + Z.of_nat (updates_due (tick st) (last_tick st) (now <$> inputs)) →
     game_loop cfg fuel inputs (Running st g) = Over (score st) Wall).
Proof.
  induction inputs as [|inp rest IH]; intros st x Hsnake Hdir Hx Hfood Hkeys.
  - simpl. rewrite Z.add_0_r. split; [|lia]. intros _. by exists st.
  - apply Forall_cons in Hkeys as [Hnone Hkeys].
    cbn [game_loop fmap list_fmap updates_due]. unfold loop_iter. rewrite Hnone.
    cbn [key_is_quit steer].
    destruct (PrimFloat.leb (tick st) (PrimFloat.sub (now inp) (last_tick st))).
    + destruct (decide (x + 1 < WIDTH)) as [Hroom|Hwall].
      * rewrite (tick_right fuel g _ x) by (simpl; try done; try lia; apply Hfood; lia).
        cbn [score food last_tick tick].
        destruct (IH {| snake := [(x + 1, 10); (x, 10); (x - 1, 10)];
                        direction := DIR_RIGHT; score := score st; food := food st;
                        last_tick := now inp; tick := tick st |} (x + 1))
          as [Hrun Hover]; simpl; try done; try lia.
        { replace (x + 1 - 1) with x by lia. by replace (x + 1 - 2) with (x - 1) by lia. }
        { intros x' Hx'. apply Hfood. lia. }
        rewrite Nat2Z.inj_succ.
        replace (x + Z.succ (Z.of_nat (updates_due (tick st) (now inp) (now <$> rest))))
          with (x + 1 + Z.of_nat (updates_due (tick st) (now inp) (now <$> rest))) by lia.
        done.
      * rewrite (tick_wall_right fuel g _ x [(x - 1, 10); (x - 2, 10)])
          by (simpl; try done; lia).
        split; [lia|]. intros _. by destruct rest.
    + apply (IH {| snake := snake st; direction := direction st; score := score st;
                   food := food st; last_tick := last_tick st; tick := tick st |} x);
        simpl; done.
Qed.

(** C2: on the 30 x 20 grid a session starts with the snake on (15,10),
    (14,10), (13,10), facing right.  With no key read and no food on its
    way, the session is still running after the first update, with the snake
    on (16,10), (15,10), (14,10), and after [k] updates for every [k] up to
    14, with the head on (15+k,10); at the 15th update, whose next head
    (30,10) is the first to fail [x < WIDTH], [run_game] returns score 0 and
    reason [wall]: the head never gets to (31,10), where 15 more updates
    after the first would take it. *)
Theorem straight_run_hits_wall
    (cfg : Platform) (fuel : nat) (g g' : Rng) (t0 : float) (st : State)
    (inputs : list Input) :
  start_game fuel g t0 = Running st g' →
  (∀ x, 16 ≤ x ≤ 29 → food st ≠ (x, 10)) →
  Forall (λ inp, read_key cfg (keyboard inp) = None) inputs →
  (WIDTH = 30 ∧ HEIGHT = 20) ∧
  (snake st = [(15, 10); (14, 10); (13, 10)] ∧ direction st = DIR_RIGHT) ∧
  (updates_due BASE_TICK t0 (now <$> inputs) = 1%nat →
     ∃ st1, run_game cfg fuel g t0 inputs = Running st1 g' ∧
            snake st1 = [(16, 10); (15, 10); (14, 10)]) ∧
  (∀ k : nat, updates_due BASE_TICK t0 (now <$> inputs) = k → (k ≤ 14)%nat →
     ∃ stk, run_game cfg fuel g t0 inputs = Running stk g' ∧
            snake stk = [(15 + Z.of_nat k, 10); (14 + Z.of_nat k, 10);
                         (13 + Z.of_nat k, 10)] ∧
            direction stk = DIR_RIGHT ∧ score stk = 0) ∧
  ((15 ≤ updates_due BASE_TICK t0 (now <$> inputs))%nat →
     run_game cfg fuel g t0 inputs = Over 0 Wall) ∧
  Nat.iter 16 (λ p, add_dir p DIR_RIGHT) (15, 10) = (31, 10).
Proof.
  intros Hstart Hfood Hkeys. unfold run_game. rewrite Hstart.
  unfold start_game in Hstart.
  destruct (place_food _ _ _) as [[food0 g1]|]; [|done].
  injection Hstart as <- <-. simpl in Hfood.
  destruct (straight_loop cfg fuel g1 inputs
              {| snake := initial_snake; direction := DIR_RIGHT; score := 0;
                 food := food0; last_tick := t0; tick := BASE_TICK |} 15)
    as [Hrun Hover]; simpl; try done.
  { intros x' Hx'. apply Hfood. unfold WIDTH in Hx'. lia. }
  simpl in Hrun, Hover.
  assert (Hsteps : ∀ k : nat,
    updates_due BASE_TICK t0 (now <$> inputs) = k → (k ≤ 14)%nat →
    ∃ stk, game_loop cfg fuel inputs
             (Running {| snake := initial_snake; direction := DIR_RIGHT; score := 0;
                         food := food0; last_tick := t0; tick := BASE_TICK |} g1)
           = Running stk g1 ∧
           snake stk = [(15 + Z.of_nat k, 10); (14 + Z.of_nat k, 10);
                        (13 + Z.of_nat k, 10)] ∧
           direction stk = DIR_RIGHT ∧ score stk = 0).
  { intros k Hk Hle. rewrite Hk in Hrun.
    destruct Hrun as (stk & Hloop & Hsnake & Hdir & Hscore); [unfold WIDTH; lia|].
    exists stk. split; [done|]. split; [|done]. rewrite Hsnake.
    replace (15 + Z.of_nat k - 1) with (14 + Z.of_nat k) by lia.
    by replace (15 + Z.of_nat k - 2) with (13 + Z.of_nat k) by lia. }
  split; [done|]. split; [done|]. split; [|split; [done|split; [|done]]].
  - intros Hone. destruct (Hsteps 1%nat Hone) as (st1 & Hloop & Hsnake & _); [lia|].
    by exists st1.
  - intros Hmany. apply Hover. unfold WIDTH. lia.
Qed.

Lemma straight_run_hits_wall_witness :
  run_game posix_cfg 1 zero_rng 0%float idle_inputs = Over 0 Wall.
Proof.
  destruct (straight_run_hits_wall posix_cfg 1 zero_rng (rng_next (rng_next zero_rng))
              0%float start_state idle_inputs) as (_ & _ & _ & _ & Hwall & _).
  - vm_compute. reflexivity.
  - intros x _ [=].
  - apply (bool_decide_unpack _). vm_compute. reflexivity.
  - apply Hwall. vm_compute. lia.
Defined.

(** ** An update that neither eats nor collides *)

(** C3: when an update lets the session go on and the next head is not the
    food, the new snake is the next head (old head plus direction) followed
    by the old snake without its last cell: same length, every old segment
    one place nearer the tail, the old tail gone. *)
Theorem plain_move_shifts_snake
    (fuel : nat) (g g' : Rng) (st st' : State) (head : Pos) (body : list Pos) :
  snake st = head :: body →
  tick_update fuel g st = Running st' g' →
  add_dir head (direction st) ≠ food st →
  snake st' = add_dir head (direction st) :: removelast (snake st) ∧
  length (snake st') = length (snake st) ∧
  snake st' !! 0%nat = Some (add_dir head (direction st)) ∧
  (∀ i : nat, (S i < length (snake st))%nat → snake st' !! S i = snake st !! i) ∧
  snake st' !! length (snake st) = None ∧
  (NoDup (snake st) → ∀ t, last (snake st) = Some t → t ∉ snake st') ∧
  (score st' = score st ∧ food st' = food st ∧ direction st' = direction st).
Proof.
  intros Hsnake Hrun Hne.
  apply tick_update_running in Hrun as (head' & body' & Hsnake' & Hin & Hnew & Hcase).
  rewrite Hsnake in Hsnake'. injection Hsnake' as <- <-.
  destruct Hcase as [(Heat & _)|(_ & -> & ->)]; [done|]. simpl.
  split; [done|]. split; [|split; [done|split; [|split; [|split; [|done]]]]].
  - rewrite removelast_length, Hsnake. simpl. lia.
  - intros i Hi. by apply removelast_lookup.
  - apply lookup_ge_None. simpl. rewrite removelast_length, Hsnake. simpl. lia.
  - intros Hnd t Hlast Hmem.
    apply last_Some in Hlast as [front Hfront].
    rewrite Hfront, removelast_last in Hmem.
    rewrite Hfront in Hnd, Hnew.
    apply NoDup_app in Hnd as (_ & Hdisj & _).
    apply elem_of_cons in Hmem as [->|Hmem].
    + apply Hnew. set_solver.
    + apply (Hdisj t Hmem). set_solver.
Qed.

Lemma plain_move_shifts_snake_witness :
  snake moved_state = (16, 10) :: removelast (snake start_state) ∧
  length (snake moved_state) = length (snake start_state).
Proof.
  pose proof (plain_move_shifts_snake 0 zero_rng zero_rng start_state moved_state
                (15, 10) [(14, 10); (13, 10)] eq_refl eq_refl) as Hmove.
  destruct Hmove as (Hsnake & Hlen & _); [intros [=]|].
  split; [exact Hsnake|exact Hlen].
Defined.

(** ** Length and score *)

Lemma eats_loop_iter cfg fuel inp (g g' : Rng) (st st' : State) :
  loop_iter cfg fuel inp g st = Running st' g' →
  score st' = score st + (if eats cfg inp st then 1 else 0) ∧
  Z.of_nat (length (snake st')) =
    Z.of_nat (length (snake st)) + (if eats cfg inp st then 1 else 0).
Proof.
  unfold loop_iter, eats.
  destruct (key_is_quit _); [done|]. simpl.
  destruct (PrimFloat.leb _ _); simpl.
  - intros Hrun.
    apply tick_update_running in Hrun as (head & body & Hsnake & Hin & Hnew & Hcase).
    pose proof (removelast_length (snake st)) as Hpop.
    cbn [snake direction score food last_tick tick] in *.
    rewrite Hsnake in Hnew, Hcase, Hpop |- *.
    apply in_grid_bounds in Hin. rewrite Hin.
    rewrite (bool_decide_eq_false_2 _ Hnew).
    destruct Hcase as [(Heat & _ & ->)|(Hne & _ & ->)];
      cbn [snake direction score food last_tick tick negb andb].
    + rewrite (bool_decide_eq_true_2 _ Heat), !length_cons. lia.
    + rewrite (bool_decide_eq_false_2 _ Hne), length_cons, Hpop, !length_cons.
      simpl Nat.pred. lia.
  - intros [= <- _]. simpl. lia.
Qed.

Lemma eaten_game_loop cfg fuel inputs (g g' : Rng) (st st' : State) :
  game_loop cfg fuel inputs (Running st g) = Running st' g' →
  score st' = score st + eaten cfg fuel inputs (Running st g) ∧
  Z.of_nat (length (snake st')) =
    Z.of_nat (length (snake st)) + eaten cfg fuel inputs (Running st g).
Proof.
  revert st g. induction inputs as [|inp rest IH]; intros st g; simpl.
  - intros [= <- _]. lia.
  - destruct (loop_iter cfg fuel inp g st) as [st1 g1| | |] eqn:Hiter;
      try (destruct rest; done).
    intros Hloop. apply IH in Hloop as [Hs Hl].
    apply eats_loop_iter in Hiter as [Hs1 Hl1]. lia.
Qed.

(** C4: in every state that a session reaches, the length of the snake is
    3 plus the score; the score is the number of updates that ate, so the
    length is the initial length plus that number. *)
Theorem length_is_three_plus_score
    (cfg : Platform) (fuel : nat) (g g' : Rng) (t0 : float)
    (inputs : list Input) (st : State) :
  run_game cfg fuel g t0 inputs = Running st g' →
  Z.of_nat (length (snake st)) = 3 + score st ∧
  score st = eaten cfg fuel inputs (start_game fuel g t0) ∧
  Z.of_nat (length (snake st)) =
    Z.of_nat (length initial_snake) + eaten cfg fuel inputs (start_game fuel g t0).
Proof.
  intros Hrun. split; [apply run_game_inv in Hrun; apply Hrun|].
  unfold run_game in Hrun.
  destruct (start_game fuel g t0) as [st0 g0| | |] eqn:Hstart;
    try (destruct inputs; done).
  apply eaten_game_loop in Hrun as [Hs Hl].
  unfold start_game in Hstart.
  destruct (place_food _ _ _) as [[food0 g1]|]; [|done].
  injection Hstart as <- <-. simpl in *. lia.
Qed.

Lemma length_is_three_plus_score_witness :
  Z.of_nat (length (snake fed_state)) = 3 + score fed_state ∧
  score fed_state = 1 ∧
  Z.of_nat (length (snake fed_state)) = Z.of_nat (length initial_snake) + 1.
Proof.
  apply (length_is_three_plus_score posix_cfg 1 feeding_rng
           (Nat.iter 4 rng_next feeding_rng) 0%float
           [{| keyboard := no_keys; now := 1%float |}] fed_state).
  vm_compute. reflexivity.
Defined.

(** ** Keys and the direction *)

Lemma loop_iter_direction cfg fuel inp (g g' : Rng) (st st' : State) :
  loop_iter cfg fuel inp g st = Running st' g' →
  direction st' = steer (read_key cfg (keyboard inp)) (direction st).
Proof.
  unfold loop_iter. destruct (key_is_quit _); [done|].
  destruct (PrimFloat.leb _ _).
  - intros Hrun.
    apply tick_update_running in Hrun as (head & body & _ & _ & _ & Hcase).
    by destruct Hcase as [(_ & _ & ->)|(_ & _ & ->)].
  - by intros [= <- _].
Qed.

(** C5: with the current direction [d] one of the four unit vectors, a key
    mapped to the opposite of [d] leaves the direction [d], and a key mapped
    to [d] or to a perpendicular direction makes its direction the current
    one, in [steer] and so in the state after the iteration; [is_opposite d d]
    is false and [is_opposite d (reverse d)] is true. *)
Theorem steer_rejects_only_reversal (d : Pos) (key : string) (cand : Pos) :
  is_dir d →
  KEY_TO_DIR !! key = Some cand →
  (cand = reverse d → steer (Some key) d = d) ∧
  (cand = d ∨ perpendicular cand d → steer (Some key) d = cand) ∧
  (is_opposite d d = false ∧ is_opposite d (reverse d) = true) ∧
  (∀ cfg fuel inp (g g' : Rng) (st st' : State),
     direction st = d →
     read_key cfg (keyboard inp) = Some key →
     loop_iter cfg fuel inp g st = Running st' g' →
     direction st' = steer (Some key) d).
Proof.
  intros Hd Hk. pose proof (KEY_TO_DIR_is_dir _ _ Hk) as Hc.
  split; [|split; [|split]].
  - intros ->. unfold steer. rewrite Hk.
    by destruct Hd as [-> | [-> | [-> | ->]]].
  - unfold steer. rewrite Hk. intros Hcase.
    destruct Hd as [-> | [-> | [-> | ->]]], Hc as [-> | [-> | [-> | ->]]];
      try reflexivity;
      destruct Hcase as [Heq|Hperp]; (discriminate Heq || discriminate Hperp).
  - by destruct Hd as [-> | [-> | [-> | ->]]].
  - intros cfg fuel inp g g' st st' <- <- Hrun. by eapply loop_iter_direction.
Qed.

Lemma steer_rejects_only_reversal_witness :
  steer (Some "a"%string) DIR_RIGHT = DIR_RIGHT ∧
  steer (Some "w"%string) DIR_RIGHT = DIR_UP.
Proof.
  split.
  - apply (steer_rejects_only_reversal DIR_RIGHT "a" DIR_LEFT).
    + unfold is_dir. tauto.
    + vm_compute. reflexivity.
    + reflexivity.
  - apply (steer_rejects_only_reversal DIR_RIGHT "w" DIR_UP).
    + unfold is_dir. tauto.
    + vm_compute. reflexivity.
    + right. reflexivity.
Defined.

(** C8: the key table holds the sixteen entries of the specification and
    nothing else: the letters in both cases, the Windows arrow codes and the
    ANSI arrow sequences.  A key of the table sets the direction to the one
    listed for it, unless that is the opposite of the current direction; [q]
    and [Q] end the session with [Quit] and the current score; and a key
    that is neither in the table nor a quit key changes nothing: the
    direction stays, the iteration does what it does with no key at all,
    whatever the platform, and when no update is due the state (snake,
    direction, food, score) is the same after it.  The arrow codes are read
    as keys of the table: on Windows after a prefix byte, elsewhere when
    each of the three characters is there at its [select]. *)
Theorem unmapped_key_changes_nothing (key : string) :
  (∀ k d, KEY_TO_DIR !! k = Some d ↔ (k, d) ∈ spec_key_table) ∧
  (∀ k d, (k, d) ∈ spec_key_table →
     (∀ cur, is_opposite d cur = false → steer (Some k) cur = d) ∧
     (∀ cfg fuel inp (g g' : Rng) (st st' : State),
        read_key cfg (keyboard inp) = Some k →
        is_opposite d (direction st) = false →
        loop_iter cfg fuel inp g st = Running st' g' →
        direction st' = d)) ∧
  (∀ cfg fuel inp (g : Rng) (st : State),
     read_key cfg (keyboard inp) ∈ [Some "q"%string; Some "Q"%string] →
     loop_iter cfg fuel inp g st = Over (score st) Quit) ∧
  (∀ cfg kb prefix code,
     os_name cfg = "nt"%string → msvcrt cfg = true →
     console kb = Some (prefix, code) →
     prefix ∈ [ascii_of_nat 0; ascii_of_nat 224] →
     code ∈ ["H"%char; "P"%char; "K"%char; "M"%char] →
     read_key cfg kb = Some (String code EmptyString)) ∧
  (∀ cfg kb code,
     os_name cfg ≠ "nt"%string → select cfg = true →
     ready1 kb = true → char1 kb = Some ESC →
     ready2 kb = true → char2 kb = Some "["%char →
     ready3 kb = true → char3 kb = Some code →
     read_key cfg kb = Some (ansi code)) ∧
  (KEY_TO_DIR !! key = None → key ∉ QUIT_KEYS →
     key_is_quit (Some key) = false ∧
     (∀ d, steer (Some key) d = d) ∧
     (∀ cfg fuel inp inp' (g : Rng) (st : State),
        read_key cfg (keyboard inp) = Some key →
        read_key cfg (keyboard inp') = None →
        now inp' = now inp →
        loop_iter cfg fuel inp g st = loop_iter cfg fuel inp' g st) ∧
     (∀ cfg fuel inp (g : Rng) (st : State),
        read_key cfg (keyboard inp) = Some key →
        PrimFloat.leb (tick st) (PrimFloat.sub (now inp) (last_tick st)) = false →
        loop_iter cfg fuel inp g st = Running st g)).
Proof.
  split; [apply KEY_TO_DIR_keys|]. split; [|split; [|split; [|split]]].
  - intros k d Hk%KEY_TO_DIR_keys.
    assert (Hsteer : ∀ cur, is_opposite d cur = false → steer (Some k) cur = d).
    { intros cur Hopp. unfold steer. by rewrite Hk, Hopp. }
    split; [done|].
    intros cfg fuel inp g g' st st' Hread Hopp Hrun.
    apply loop_iter_direction in Hrun. rewrite Hrun, Hread. by apply Hsteer.
  - intros cfg fuel inp g st Hq. unfold loop_iter.
    by repeat (apply elem_of_cons in Hq as [->|Hq]; [done|]); apply elem_of_nil in Hq.
  - intros cfg kb prefix code Hos Hms Hcon Hp Hc.
    unfold read_key, read_key_windows. rewrite Hos, Hms, Hcon. simpl.
    rewrite (bool_decide_eq_true_2 _ Hp).
    repeat (apply elem_of_cons in Hc as [->|Hc]; [reflexivity|]).
    by apply elem_of_nil in Hc.
  - intros cfg kb code Hos Hsel Hr1 Hc1 Hr2 Hc2 Hr3 Hc3.
    unfold read_key, read_key_posix. rewrite Hsel, Hr1, Hc1, Hr2, Hc2, Hr3, Hc3.
    destruct (String.eqb_spec (os_name cfg) "nt"); [done|]. reflexivity.
  - intros Hnone Hnq.
    assert (Hq : key_is_quit (Some key) = false) by by apply bool_decide_eq_false_2.
    assert (Hs : ∀ d, steer (Some key) d = d) by (intros d; unfold steer; by rewrite Hnone).
    split; [done|]. split; [done|]. split.
    + intros cfg fuel inp inp' g st Hkey Hnokey Hnow.
      unfold loop_iter. rewrite Hkey, Hnokey, Hq, Hs, Hnow. reflexivity.
    + intros cfg fuel inp g st Hkey Hwait.
      unfold loop_iter. rewrite Hkey, Hq, Hs, Hwait. by destruct st.
Qed.

Lemma unmapped_key_changes_nothing_witness :
  steer (Some "x"%string) DIR_RIGHT = DIR_RIGHT ∧
  steer (Some "w"%string) DIR_RIGHT = DIR_UP ∧
  loop_iter posix_cfg 1 {| keyboard := typed "x"; now := 0.01%float |}
    zero_rng start_state = Running start_state zero_rng.
Proof.
  destruct (unmapped_key_changes_nothing "x") as (_ & Hmapped & _ & _ & _ & Hx).
  destruct Hx as (_ & Hsteer & _ & Hstate).
  - vm_compute. reflexivity.
  - apply (bool_decide_unpack _). vm_compute. reflexivity.
  - split; [apply Hsteer|]. split.
    + apply (Hmapped "w"%string DIR_UP).
      * apply (bool_decide_unpack _). vm_compute. reflexivity.
      * reflexivity.
    + apply Hstate; vm_compute; reflexivity.
Defined.

(** ** The tick interval *)

Lemma tick_interval_table :
  Forall (λ s1, fle MIN_TICK (tick_interval s1) ∧
                Forall (λ s2, fle (tick_interval s2) (tick_interval s1))
                       (seqZ s1 (MAX_SCORE + 1 - s1)))
         (seqZ 0 (MAX_SCORE + 1)).
Proof. apply (bool_decide_unpack _). vm_compute. reflexivity. Qed.

Lemma tick_interval_floor (s : Z) :
  0 ≤ s ≤ MAX_SCORE → fle MIN_TICK (tick_interval s).
Proof.
  intros Hs. pose proof tick_interval_table as Htab.
  rewrite Forall_forall in Htab. apply (Htab s). apply elem_of_seqZ. lia.
Qed.

Lemma tick_interval_mono (s1 s2 : Z) :
  0 ≤ s1 → s1 ≤ s2 → s2 ≤ MAX_SCORE → fle (tick_interval s2) (tick_interval s1).
Proof.
  intros H0 H12 Hmax. pose proof tick_interval_table as Htab.
  rewrite Forall_forall in Htab.
  destruct (Htab s1) as [_ Hrow]; [apply elem_of_seqZ; lia|].
  rewrite Forall_forall in Hrow. apply Hrow, elem_of_seqZ. lia.
Qed.

(** C6: in every state that a session reaches the tick interval is
    [max(0.05, 0.12 - score * 0.002)], computed in binary64 as Python
    computes it; it is at least 0.05; and of two states reached, the one
    with the higher score has the smaller or equal interval. *)
Theorem tick_interval_law
    (cfg1 cfg2 : Platform) (fuel1 fuel2 : nat) (g1 g1' g2 g2' : Rng)
    (t1 t2 : float) (inputs1 inputs2 : list Input) (st1 st2 : State) :
  run_game cfg1 fuel1 g1 t1 inputs1 = Running st1 g1' →
  run_game cfg2 fuel2 g2 t2 inputs2 = Running st2 g2' →
  tick st1 =
    py_max 0.05%float
      (PrimFloat.sub 0.12%float (PrimFloat.mul (float_of_int (score st1)) 0.002%float)) ∧
  fle 0.05%float (tick st1) ∧
  (score st1 ≤ score st2 → fle (tick st2) (tick st1)).
Proof.
  intros Hinv1%run_game_inv Hinv2%run_game_inv.
  pose proof (session_inv_score _ Hinv1) as Hs1.
  pose proof (session_inv_score _ Hinv2) as Hs2.
  rewrite (inv_tick _ Hinv1), (inv_tick _ Hinv2).
  split; [done|]. split.
  - by apply tick_interval_floor.
  - intros Hle. apply tick_interval_mono; [lia|done|apply Hs2].
Qed.

Lemma tick_interval_law_witness :
  fle 0.05%float (tick start_state) ∧ fle (tick fed_state) (tick start_state).
Proof.
  destruct (tick_interval_law posix_cfg posix_cfg 1 1
              zero_rng (Nat.iter 2 rng_next zero_rng)
              feeding_rng (Nat.iter 4 rng_next feeding_rng)
              0%float 0%float [] [{| keyboard := no_keys; now := 1%float |}]
              start_state fed_state) as (_ & Hfloor & Hmono).
  - vm_compute. reflexivity.
  - vm_compute. reflexivity.
  - split; [exact Hfloor|]. apply Hmono. vm_compute. discriminate.
Defined.

(** ** Placing the food *)

(** C7: for a snake on at most [WIDTH * HEIGHT - 1] cells, whenever
    [place_food (set snake)] returns, the cell returned is in the grid and
    is no cell of the snake; and there are draws on which it does return,
    at the first candidate. *)
Theorem food_avoids_snake (snake : list Pos) :
  Z.of_nat (size (list_to_set snake : gset Pos)) ≤ WIDTH * HEIGHT - 1 →
  (∀ fuel (g g' : Rng) pos,
     place_food fuel g (list_to_set snake) = Some (pos, g') →
     (0 ≤ pos.1 < WIDTH ∧ 0 ≤ pos.2 < HEIGHT) ∧ pos ∉ snake) ∧
  (∃ (g g' : Rng) pos,
     ∀ fuel : nat, place_food (1 + fuel) g (list_to_set snake) = Some (pos, g')).
Proof.
  intros Hsize. split.
  - intros fuel g g' pos Hfood. apply place_food_sound in Hfood as [Hin Hfree].
    by rewrite elem_of_list_to_set in Hfree.
  - apply free_cell_exists in Hsize as (p & Hin & Hfree).
    destruct (place_food_hits p _ Hin Hfree) as [g' Hhit].
    exists (λ n, if Nat.even n then p.1 else p.2), g', p.
    intros fuel. by apply (place_food_more_fuel 1 fuel).
Qed.

Lemma food_avoids_snake_witness :
  ((0, 0) ∉ initial_snake) ∧ (0 ≤ 0 < WIDTH ∧ 0 ≤ 0 < HEIGHT).
Proof.
  destruct (food_avoids_snake initial_snake) as [Hsound _].
  - vm_compute. discriminate.
  - destruct (Hsound 1%nat zero_rng (Nat.iter 2 rng_next zero_rng) (0, 0))
      as [Hin Hfree].
    + vm_compute. reflexivity.
    + split; [exact Hfree|exact Hin].
Defined.

(** C10: when [snake_set] holds every cell of the grid, [place_food] does
    not return, whatever the fuel and the draws; so the update in which the
    snake eats the food on the last free cell never completes: the session
    neither goes on nor ends. *)
Theorem full_grid_food_never_placed (snake_set : gset Pos) :
  (∀ x y, 0 ≤ x < WIDTH → 0 ≤ y < HEIGHT → (x, y) ∈ snake_set) →
  (∀ fuel (g : Rng), place_food fuel g snake_set = None) ∧
  (∀ fuel (g : Rng) (st : State) head body,
     snake st = head :: body →
     snake_set = list_to_set (add_dir head (direction st) :: snake st) →
     in_grid (add_dir head (direction st)) →
     add_dir head (direction st) ∉ snake st →
     add_dir head (direction st) = food st →
     tick_update fuel g st = Spinning).
Proof.
  intros Hfull.
  assert (Hnone : ∀ fuel (g : Rng), place_food fuel g snake_set = None).
  { intros fuel g. apply place_food_full. intros [x y] [Hx Hy]. by apply Hfull. }
  split; [done|].
  intros fuel g st head body Hsnake Hset Hin Hnew Heat.
  unfold tick_update. rewrite Hsnake.
  apply in_grid_bounds in Hin. rewrite Hin, <- Hsnake.
  rewrite (bool_decide_eq_false_2 _ Hnew), (bool_decide_eq_true_2 _ Heat).
  by rewrite <- Hset, Hnone.
Qed.

Lemma full_grid_food_never_placed_witness :
  place_food 1000 zero_rng (list_to_set ((0, 0) :: winding_snake)) = None ∧
  tick_update 1000 zero_rng crowded_state = Spinning.
Proof.
  destruct (full_grid_food_never_placed (list_to_set ((0, 0) :: winding_snake)))
    as [Hnone Hspin].
  - intros x y Hx Hy. apply elem_of_list_to_set.
    assert (Hcell : (x, y) ∈ grid_cells) by by apply elem_of_grid_cells.
    revert Hcell. generalize (x, y). apply Forall_forall.
    apply (bool_decide_unpack _). vm_compute. reflexivity.
  - split; [apply Hnone|].
    apply (Hspin 1000%nat zero_rng crowded_state (1, 0) (tail winding_snake)).
    + vm_compute. reflexivity.
    + reflexivity.
    + apply (bool_decide_unpack _). vm_compute. reflexivity.
    + apply (bool_decide_unpack _). vm_compute. reflexivity.
    + reflexivity.
Defined.

(** ** The guard of [main] *)

(** C9, as worded, fails: on a platform that is not Windows and on which
    [select] could not be imported, neither [msvcrt] nor [select] is there,
    and [main] prints no diagnostic and plays a session, in which no key is
    ever read: the [q] typed is ignored and the snake runs into the wall. *)
Lemma no_diagnostic_without_select :
  no_input_mechanism bare_posix_cfg ∧
  main bare_posix_cfg [blind_env] =
    [Session (Over 0 Wall); Printed "";
     Printed "Game over (wall). Final score: 0";
     Asked "Play again? (y/n): " "n"] ∧
  ¬ (∀ cfg envs, no_input_mechanism cfg →
       main cfg envs = [Printed DIAGNOSTIC] ∧ ¬ starts_session (main cfg envs)).
Proof.
  assert (Hnone : no_input_mechanism bare_posix_cfg) by (split; reflexivity).
  split; [exact Hnone|].
  assert (Hmain : main bare_posix_cfg [blind_env] =
    [Session (Over 0 Wall); Printed "";
     Printed "Game over (wall). Final score: 0";
     Asked "Play again? (y/n): " "n"]) by (vm_compute; reflexivity).
  split; [exact Hmain|].
  intros Hclaim.
  destruct (Hclaim bare_posix_cfg [blind_env] Hnone) as [Hdiag _].
  rewrite Hmain in Hdiag. discriminate Hdiag.
Qed.

(** C9, amended: on Windows ([os.name] is [nt]) without [msvcrt], [main]
    prints the one-line diagnostic and returns, and no session is played. *)
Theorem windows_without_msvcrt_exits (cfg : Platform) (envs : list SessionEnv) :
  os_name cfg = "nt"%string →
  msvcrt cfg = false →
  main cfg envs = [Printed DIAGNOSTIC] ∧ ¬ starts_session (main cfg envs).
Proof.
  intros Hos Hms. unfold main. rewrite Hos, Hms. simpl.
  split; [done|]. intros [result Hmem].
  apply list_elem_of_singleton in Hmem. discriminate Hmem.
Qed.

Lemma windows_without_msvcrt_exits_witness :
  main bare_windows_cfg [blind_env] = [Printed DIAGNOSTIC].
Proof.
  apply (windows_without_msvcrt_exits bare_windows_cfg [blind_env]); reflexivity.
Defined.

(** * Further properties of the code *)

(** ** What every state of a session satisfies *)

Lemma game_loop_app cfg fuel (inputs more : list Input) (o : Outcome) :
  game_loop cfg fuel (inputs ++ more) o =
  game_loop cfg fuel more (game_loop cfg fuel inputs o).
Proof.
  revert o. induction inputs as [|inp rest IH]; intros o; simpl.
  - by destruct more, o.
  - destruct o; [apply IH|by destruct more..].
Qed.

Lemma game_loop_stopped cfg fuel (inputs : list Input) (o : Outcome) :
  is_running o = false → game_loop cfg fuel inputs o = o.
Proof. by destruct inputs, o. Qed.

(** X1: in every state that a session reaches, the cells of the snake are
    distinct cells of the grid, the food is a grid cell that is no cell of
    the snake, the direction is one of the four unit vectors, and the score
    is between 0 and [WIDTH * HEIGHT - 4]. *)
Theorem session_state_well_formed
    (cfg : Platform) (fuel : nat) (g g' : Rng) (t0 : float)
    (inputs : list Input) (st : State) :
  run_game cfg fuel g t0 inputs = Running st g' →
  Forall in_grid (snake st) ∧ NoDup (snake st) ∧
  (in_grid (food st) ∧ food st ∉ snake st) ∧
  is_dir (direction st) ∧
  0 ≤ score st ≤ WIDTH * HEIGHT - 4.
Proof.
  intros Hinv%run_game_inv. pose proof (session_inv_score _ Hinv) as Hscore.
  destruct Hinv. done.
Qed.

Lemma session_state_well_formed_witness :
  NoDup (snake fed_state) ∧ (food fed_state ∉ snake fed_state).
Proof.
  destruct (session_state_well_formed posix_cfg 1 feeding_rng
              (Nat.iter 4 rng_next feeding_rng) 0%float
              [{| keyboard := no_keys; now := 1%float |}] fed_state)
    as (_ & Hnd & [_ Hfood] & _).
  - vm_compute. reflexivity.
  - split; [exact Hnd|exact Hfood].
Defined.

(** ** The snake is a path *)

Lemma contiguous_cons (a b : Pos) (l : list Pos) :
  contiguous (a :: b :: l) ↔ adjacent a b ∧ contiguous (b :: l).
Proof. reflexivity. Qed.

Lemma contiguous_removelast (l : list Pos) :
  contiguous l → contiguous (removelast l).
Proof.
  induction l as [|a [|b l] IH]; [done..|].
  intros [Hab Hrest]%contiguous_cons. rewrite removelast_cons.
  destruct l as [|c l]; [done|].
  rewrite removelast_cons in IH |- *. apply contiguous_cons. split; [done|].
  by apply IH.
Qed.

Lemma contiguous_lookup (l : list Pos) (i : nat) (a b : Pos) :
  contiguous l → l !! i = Some a → l !! S i = Some b → adjacent a b.
Proof.
  revert i. induction l as [|x [|y l] IH]; intros i Hc Ha Hb; [done| |].
  - by destruct i.
  - apply contiguous_cons in Hc as [Hxy Hrest]. destruct i as [|i].
    + simpl in Ha, Hb. by simplify_eq.
    + by apply (IH i).
Qed.

Lemma adjacent_add_dir (p d : Pos) : is_dir d → adjacent (add_dir p d) p.
Proof.
  unfold adjacent, add_dir. simpl. intros Hd.
  replace (p.1 + d.1 - p.1, p.2 + d.2 - p.2) with d; [done|].
  destruct d; simpl; f_equal; lia.
Qed.

Lemma contiguous_tick (fuel : nat) (g g' : Rng) (st st' : State) :
  is_dir (direction st) → contiguous (snake st) →
  tick_update fuel g st = Running st' g' → contiguous (snake st').
Proof.
  intros Hd Hc Hrun.
  apply tick_update_running in Hrun as (head & body & Hsnake & _ & _ & Hcase).
  pose proof (adjacent_add_dir head _ Hd) as Hadj.
  destruct Hcase as [(_ & _ & ->)|(_ & _ & ->)]; simpl.
  - rewrite Hsnake in Hc |- *. by apply contiguous_cons.
  - apply contiguous_removelast in Hc. rewrite Hsnake in Hc |- *.
    destruct body as [|b body]; [done|].
    rewrite removelast_cons in Hc |- *. by apply contiguous_cons.
Qed.

Lemma contiguous_loop_iter cfg fuel inp (g g' : Rng) (st st' : State) :
  session_inv st → contiguous (snake st) →
  loop_iter cfg fuel inp g st = Running st' g' → contiguous (snake st').
Proof.
  intros Hinv Hc. unfold loop_iter. destruct (key_is_quit _); [done|].
  destruct (PrimFloat.leb _ _).
  - apply contiguous_tick; simpl; [|done]. apply steer_is_dir, Hinv.
  - by intros [= <- _].
Qed.

Lemma contiguous_game_loop cfg fuel inputs (g g' : Rng) (st st' : State) :
  session_inv st → contiguous (snake st) →
  game_loop cfg fuel inputs (Running st g) = Running st' g' →
  contiguous (snake st').
Proof.
  revert st g. induction inputs as [|inp rest IH]; intros st g Hinv Hc; simpl.
  - by intros [= <- _].
  - destruct (loop_iter cfg fuel inp g st) as [st1 g1| | |] eqn:Hiter;
      try (destruct rest; done).
    apply IH; [by eapply session_inv_loop_iter|by eapply contiguous_loop_iter].
Qed.

(** X2: in every state that a session reaches the snake is a path on the
    grid: each segment and the one after it differ by one of the four unit
    vectors. *)
Theorem snake_is_a_path
    (cfg : Platform) (fuel : nat) (g g' : Rng) (t0 : float)
    (inputs : list Input) (st : State) (i : nat) (a b : Pos) :
  run_game cfg fuel g t0 inputs = Running st g' →
  snake st !! i = Some a → snake st !! S i = Some b →
  is_dir (a.1 - b.1, a.2 - b.2).
Proof.
  unfold run_game. intros Hrun Ha Hb.
  destruct (start_game fuel g t0) as [st0 g0| | |] eqn:Hstart;
    try (destruct inputs; done).
  apply (contiguous_lookup (snake st) i); [|done..].
  eapply contiguous_game_loop; [by eapply session_inv_start| |done].
  unfold start_game in Hstart.
  destruct (place_food _ _ _) as [[food0 g1]|]; [|done].
  injection Hstart as <- <-. simpl.
  unfold adjacent, is_dir. vm_compute. tauto.
Qed.

Lemma snake_is_a_path_witness : is_dir (16 - 15, 10 - 10).
Proof.
  apply (snake_is_a_path posix_cfg 1 feeding_rng
           (Nat.iter 4 rng_next feeding_rng) 0%float
           [{| keyboard := no_keys; now := 1%float |}] fed_state 0
           (16, 10) (15, 10)).
  - vm_compute. reflexivity.
  - reflexivity.
  - reflexivity.
Defined.

(** ** No [IndexError] *)

Lemma session_inv_nonempty (st : State) : session_inv st → snake st ≠ [].
Proof.
  intros [_ _ Hlen Hsc _ _ _] Hnil. rewrite Hnil in Hlen. simpl in Hlen. lia.
Qed.

Lemma loop_iter_not_raised cfg fuel inp (g : Rng) (st : State) :
  session_inv st → is_raised (loop_iter cfg fuel inp g st) = false.
Proof.
  intros Hne%session_inv_nonempty. unfold loop_iter.
  destruct (key_is_quit _); [done|].
  destruct (PrimFloat.leb _ _); [|done].
  unfold tick_update. simpl. destruct (snake st) as [|head body]; [done|].
  destruct (out_of_bounds _); [done|].
  repeat case_bool_decide; try done.
  by destruct (place_food _ _ _) as [[? ?]|].
Qed.

Lemma game_loop_not_raised cfg fuel inputs (g : Rng) (st : State) :
  session_inv st → is_raised (game_loop cfg fuel inputs (Running st g)) = false.
Proof.
  revert st g. induction inputs as [|inp rest IH]; intros st g Hinv; simpl; [done|].
  pose proof (loop_iter_not_raised cfg fuel inp g st Hinv) as Hiter.
  destruct (loop_iter cfg fuel inp g st) as [st1 g1| | |] eqn:Hstep;
    try (by destruct rest).
  apply IH. by eapply session_inv_loop_iter.
Qed.

(** X3: a session never raises [IndexError]: no run of [run_game] comes to
    [snake[0]] on an empty deque, and in every state reached [render] has a
    head to draw and produces a frame. *)
Theorem session_never_raises
    (cfg : Platform) (fuel : nat) (g : Rng) (t0 : float) (inputs : list Input) :
  is_raised (run_game cfg fuel g t0 inputs) = false ∧
  match run_game cfg fuel g t0 inputs with
  | Running st _ => is_Some (render (snake st) (food st) (score st))
  | _ => True
  end.
Proof.
  split.
  - unfold run_game.
    destruct (start_game fuel g t0) as [st0 g0| | |] eqn:Hstart.
    + apply game_loop_not_raised. by eapply session_inv_start.
    + by destruct inputs.
    + by destruct inputs.
    + unfold start_game in Hstart. by destruct (place_food _ _ _) as [[? ?]|].
  - destruct (run_game cfg fuel g t0 inputs) as [st g'| | |] eqn:Hrun; [|done..].
    apply run_game_inv, session_inv_nonempty in Hrun.
    unfold render, render_rows. by destruct (snake st).
Qed.

(** ** Quitting, and the score that a session returns *)

(** X4: once a session has reached a state, a poll that reads [q] or [Q]
    ends it at once with [Quit] and the score of that state, also when an
    update is due, and whatever input follows is not looked at. *)
Theorem quit_returns_current_score
    (cfg : Platform) (fuel : nat) (g g' : Rng) (t0 : float)
    (inputs more : list Input) (inp : Input) (st : State) :
  run_game cfg fuel g t0 inputs = Running st g' →
  read_key cfg (keyboard inp) ∈ [Some "q"%string; Some "Q"%string] →
  run_game cfg fuel g t0 (inputs ++ inp :: more) = Over (score st) Quit.
Proof.
  unfold run_game. intros Hrun Hq. rewrite game_loop_app, Hrun. simpl.
  assert (Hiter : loop_iter cfg fuel inp g' st = Over (score st) Quit).
  { unfold loop_iter.
    by repeat (apply elem_of_cons in Hq as [->|Hq]; [done|]);
      apply elem_of_nil in Hq. }
  rewrite Hiter. by destruct more.
Qed.

Lemma quit_returns_current_score_witness :
  run_game posix_cfg 1 zero_rng 0%float
    [{| keyboard := typed "q"; now := 5%float |}]
  = Over 0 Quit.
Proof.
  apply (quit_returns_current_score posix_cfg 1 zero_rng
           (Nat.iter 2 rng_next zero_rng) 0%float [] []
           {| keyboard := typed "q"; now := 5%float |}
           start_state).
  - vm_compute. reflexivity.
  - apply (bool_decide_unpack _). vm_compute. reflexivity.
Defined.

Lemma loop_iter_over cfg fuel inp (g : Rng) (st : State) (final : Z) (r : Reason) :
  loop_iter cfg fuel inp g st = Over final r →
  final = score st ∧ eats cfg inp st = false.
Proof.
  unfold loop_iter, eats. destruct (key_is_quit _); simpl; [by intros [= <- _]|].
  destruct (PrimFloat.leb _ _); simpl; [|done].
  unfold tick_update. simpl. destruct (snake st) as [|head body]; [done|].
  destruct (out_of_bounds _); simpl; [by intros [= <- _]|].
  case_bool_decide; simpl; [by intros [= <- _]|].
  case_bool_decide; [|done].
  by destruct (place_food _ _ _) as [[? ?]|].
Qed.

Lemma eaten_nonneg cfg fuel inputs (o : Outcome) : 0 ≤ eaten cfg fuel inputs o.
Proof.
  revert o. induction inputs as [|inp rest IH]; intros o; simpl; [done|].
  destruct o; [|done..]. specialize (IH (loop_iter cfg fuel inp g st)).
  destruct (eats cfg inp st); lia.
Qed.

Lemma eaten_game_loop_over cfg fuel inputs (g : Rng) (st : State) (final : Z) (r : Reason) :
  session_inv st →
  game_loop cfg fuel inputs (Running st g) = Over final r →
  final = score st + eaten cfg fuel inputs (Running st g) ∧ final ≤ MAX_SCORE.
Proof.
  revert st g. induction inputs as [|inp rest IH]; intros st g Hinv; simpl; [done|].
  destruct (loop_iter cfg fuel inp g st) as [st1 g1|final1 r1| |] eqn:Hiter;
    try (destruct rest; done).
  - intros Hloop. apply IH in Hloop as [Hs Hmax]; [|by eapply session_inv_loop_iter].
    apply eats_loop_iter in Hiter as [Hs1 _]. lia.
  - intros Hloop. apply loop_iter_over in Hiter as [-> ->].
    pose proof (session_inv_score _ Hinv) as Hscore. unfold MAX_SCORE.
    destruct rest; injection Hloop as <- _; simpl; lia.
Qed.

(** X5: the score that a session returns when it ends, by the wall, the
    snake or the quit key, is the number of updates of that session that ate
    the food, and it is between 0 and [WIDTH * HEIGHT - 4]. *)
Theorem returned_score_counts_food
    (cfg : Platform) (fuel : nat) (g : Rng) (t0 : float)
    (inputs : list Input) (final : Z) (r : Reason) :
  run_game cfg fuel g t0 inputs = Over final r →
  final = eaten cfg fuel inputs (start_game fuel g t0) ∧
  0 ≤ final ≤ WIDTH * HEIGHT - 4.
Proof.
  unfold run_game. intros Hrun.
  destruct (start_game fuel g t0) as [st0 g0| | |] eqn:Hstart;
    try (destruct inputs; done).
  - pose proof (session_inv_start _ _ _ _ _ Hstart) as Hinv.
    apply eaten_game_loop_over in Hrun as [Hs Hmax]; [|done].
    pose proof (eaten_nonneg cfg fuel inputs (Running st0 g0)).
    unfold start_game in Hstart.
    destruct (place_food _ _ _) as [[food0 g1]|]; [|done].
    injection Hstart as <- <-. simpl in *. unfold MAX_SCORE in *. lia.
  - unfold start_game in Hstart. by destruct (place_food _ _ _) as [[? ?]|].
Qed.

Lemma returned_score_counts_food_witness :
  1 = eaten posix_cfg 1
        [{| keyboard := no_keys; now := 1%float |};
         {| keyboard := typed "Q"; now := 1%float |}]
        (start_game 1 feeding_rng 0%float).
Proof.
  apply (returned_score_counts_food posix_cfg 1 feeding_rng 0%float
           [{| keyboard := no_keys; now := 1%float |};
            {| keyboard := typed "Q"; now := 1%float |}] 1 Quit).
  vm_compute. reflexivity.
Defined.

(** X6: the score and the length of the snake never go down while a
    session runs: a state reached later has a score and a length at least
    those of a state reached before. *)
Theorem score_never_decreases
    (cfg : Platform) (fuel : nat) (g g1 g2 : Rng) (t0 : float)
    (inputs more : list Input) (st1 st2 : State) :
  run_game cfg fuel g t0 inputs = Running st1 g1 →
  run_game cfg fuel g t0 (inputs ++ more) = Running st2 g2 →
  score st1 ≤ score st2 ∧ (length (snake st1) ≤ length (snake st2))%nat.
Proof.
  unfold run_game. intros Hrun1 Hrun2. rewrite game_loop_app, Hrun1 in Hrun2.
  apply eaten_game_loop in Hrun2 as [Hs Hl].
  pose proof (eaten_nonneg cfg fuel more (Running st1 g1)). lia.
Qed.

Lemma score_never_decreases_witness :
  score start_state ≤ score fed_state ∧
  (length (snake start_state) ≤ length (snake fed_state))%nat.
Proof.
  apply (score_never_decreases posix_cfg 1 feeding_rng
           (Nat.iter 2 rng_next feeding_rng) (Nat.iter 4 rng_next feeding_rng)
           0%float [] [{| keyboard := no_keys; now := 1%float |}]
           {| snake := snake start_state; direction := DIR_RIGHT; score := 0;
              food := (16, 10); last_tick := 0%float; tick := BASE_TICK |}
           fed_state).
  - vm_compute. reflexivity.
  - vm_compute. reflexivity.
Defined.

(** ** A snake left alone reaches a wall *)

Lemma updates_nonneg cfg fuel inputs (o : Outcome) : 0 ≤ updates cfg fuel inputs o.
Proof.
  revert o. induction inputs as [|inp rest IH]; intros o; simpl; [done|].
  destruct o; [|done..]. specialize (IH (loop_iter cfg fuel inp g st)).
  destruct (due cfg inp st); lia.
Qed.

Lemma loop_iter_head cfg fuel inp (g g' : Rng) (st st' : State) (h : Pos) :
  read_key cfg (keyboard inp) = None →
  snake st !! 0%nat = Some h →
  loop_iter cfg fuel inp g st = Running st' g' →
  direction st' = direction st ∧
  snake st' !! 0%nat =
    Some (h.1 + (if due cfg inp st then 1 else 0) * (direction st).1,
          h.2 + (if due cfg inp st then 1 else 0) * (direction st).2).
Proof.
  intros Hnone Hh. unfold loop_iter, due. rewrite Hnone. cbn [key_is_quit steer negb andb].
  destruct (PrimFloat.leb _ _).
  - intros Hrun.
    apply tick_update_running in Hrun as (hd & body & Hsnake & _ & _ & Hcase).
    cbn [snake direction] in Hsnake, Hcase. rewrite Hsnake in Hh. injection Hh as ->.
    assert (Hst' : direction st' = direction st ∧
                   snake st' !! 0%nat = Some (add_dir h (direction st)))
      by (by destruct Hcase as [(_ & _ & ->)|(_ & _ & ->)]).
    destruct Hst' as [Hd Hh']. split; [done|].
    transitivity (Some (add_dir h (direction st))); [exact Hh'|].
    unfold add_dir. f_equal. f_equal; lia.
  - intros [= <- _]. split; [done|]. etrans; [exact Hh|]. f_equal.
    destruct h; simpl; f_equal; lia.
Qed.

Lemma untouched_loop cfg fuel (more : list Input) :
  ∀ (st st2 : State) (g g2 : Rng) (h : Pos),
    session_inv st → snake st !! 0%nat = Some h →
    Forall (λ inp, read_key cfg (keyboard inp) = None) more →
    game_loop cfg fuel more (Running st g) = Running st2 g2 →
    session_inv st2 ∧ direction st2 = direction st ∧
    snake st2 !! 0%nat =
      Some (h.1 + updates cfg fuel more (Running st g) * (direction st).1,
            h.2 + updates cfg fuel more (Running st g) * (direction st).2).
Proof.
  induction more as [|inp rest IH]; intros st st2 g g2 h Hinv Hh Hkeys.
  - simpl. intros [= <- _]. split; [done|]. split; [done|].
    etrans; [exact Hh|]. f_equal. destruct h; simpl; f_equal; lia.
  - apply Forall_cons in Hkeys as [Hnone Hkeys]. cbn [game_loop updates].
    destruct (loop_iter cfg fuel inp g st) as [st1 g1| | |] eqn:Hiter;
      try (destruct rest; done).
    intros Hrest.
    pose proof (session_inv_loop_iter _ _ _ _ _ _ _ Hinv Hiter) as Hinv1.
    destruct (loop_iter_head _ _ _ _ _ _ _ h Hnone Hh Hiter) as [Hd1 Hh1].
    destruct (IH _ _ _ _ _ Hinv1 Hh1 Hkeys Hrest) as (Hinv2 & Hd2 & Hh2).
    split; [done|]. split; [congruence|]. etrans; [exact Hh2|].
    rewrite Hd1. simpl. f_equal. f_equal; lia.
Qed.

(** X7: while no key is read, every update that comes due moves the head
    one cell in the direction, which stays as it is; so a session that is
    still running has made fewer than [WIDTH] updates since: once 30 updates
    have come due with no key read, the session is no longer running. *)
Theorem untouched_session_stops
    (cfg : Platform) (fuel : nat) (g g1 g2 : Rng) (t0 : float)
    (inputs more : list Input) (st st2 : State) (hd : Pos) (body : list Pos) :
  run_game cfg fuel g t0 inputs = Running st g1 →
  Forall (λ inp, read_key cfg (keyboard inp) = None) more →
  run_game cfg fuel g t0 (inputs ++ more) = Running st2 g2 →
  snake st = hd :: body →
  direction st2 = direction st ∧
  snake st2 !! 0%nat =
    Some (hd.1 + updates cfg fuel more (Running st g1) * (direction st).1,
          hd.2 + updates cfg fuel more (Running st g1) * (direction st).2) ∧
  0 ≤ updates cfg fuel more (Running st g1) < WIDTH.
Proof.
  intros Hrun Hkeys Hrun2 Hsnake.
  pose proof (run_game_inv _ _ _ _ _ _ _ Hrun) as Hinv.
  unfold run_game in Hrun, Hrun2. rewrite game_loop_app, Hrun in Hrun2.
  destruct (untouched_loop cfg fuel more st st2 g1 g2 hd Hinv) as (Hinv2 & Hd2 & Hh2);
    [by rewrite Hsnake|done..|].
  split; [done|]. split; [done|].
  pose proof (updates_nonneg cfg fuel more (Running st g1)) as Hn.
  split; [done|].
  assert (Hin : in_grid hd).
  { pose proof (inv_grid _ Hinv) as Hgrid. rewrite Hsnake in Hgrid.
    by apply Forall_cons in Hgrid as [? _]. }
  assert (Hin2 : in_grid
            (hd.1 + updates cfg fuel more (Running st g1) * (direction st).1,
             hd.2 + updates cfg fuel more (Running st g1) * (direction st).2)).
  { pose proof (inv_grid _ Hinv2) as Hgrid.
    destruct (snake st2) as [|h2 body2]; [done|]. injection Hh2 as <-.
    by apply Forall_cons in Hgrid as [? _]. }
  pose proof (inv_dir _ Hinv) as Hd.
  destruct Hd as [Hd | [Hd | [Hd | Hd]]]; rewrite Hd in Hin2;
    unfold in_grid, WIDTH, HEIGHT in *; simpl in Hin2; lia.
Qed.

Lemma untouched_session_stops_witness :
  0 ≤ updates posix_cfg 1 [{| keyboard := no_keys; now := 1%float |}]
        (Running start_state (Nat.iter 2 rng_next zero_rng)) < WIDTH.
Proof.
  apply (untouched_session_stops posix_cfg 1 zero_rng
           (Nat.iter 2 rng_next zero_rng) (Nat.iter 2 rng_next zero_rng) 0%float
           [] [{| keyboard := no_keys; now := 1%float |}] start_state
           {| snake := [(16, 10); (15, 10); (14, 10)]; direction := DIR_RIGHT;
              score := 0; food := (0, 0); last_tick := 1%float; tick := BASE_TICK |}
           (15, 10) [(14, 10); (13, 10)]).
  - vm_compute. reflexivity.
  - apply (bool_decide_unpack _). vm_compute. reflexivity.
  - vm_compute. reflexivity.
  - reflexivity.
Defined.

(** ** Two turns between two updates *)

Lemma mapped_key_not_quit (key : string) (d : Pos) :
  KEY_TO_DIR !! key = Some d → key_is_quit (Some key) = false.
Proof.
  intros Hk%KEY_TO_DIR_keys. unfold spec_key_table in Hk.
  repeat (apply elem_of_cons in Hk as [[= -> _]|Hk]; [by vm_compute|]).
  by apply elem_of_nil in Hk.
Qed.

Lemma loop_iter_wait cfg fuel inp (g : Rng) (st : State) :
  key_is_quit (read_key cfg (keyboard inp)) = false →
  PrimFloat.leb (tick st) (PrimFloat.sub (now inp) (last_tick st)) = false →
  loop_iter cfg fuel inp g st =
    Running {| snake := snake st;
               direction := steer (read_key cfg (keyboard inp)) (direction st);
               score := score st; food := food st;
               last_tick := last_tick st; tick := tick st |} g.
Proof. intros Hq Hwait. unfold loop_iter. by rewrite Hq, Hwait. Qed.

(** X8: the reversal test looks at the direction as the last key left it,
    not at the last move.  So a perpendicular key and then the key of the
    opposite direction, both read before the next update is due, turn the
    snake back on itself: the update that follows moves the head onto the
    second segment and ends the session with [Self]. *)
Theorem two_turns_reverse_the_snake
    (cfg : Platform) (fuel : nat) (g g' : Rng) (t0 : float) (inputs : list Input)
    (st : State) (head neck : Pos) (rest : list Pos)
    (k1 k2 : string) (p : Pos) (i1 i2 i3 : Input) :
  run_game cfg fuel g t0 inputs = Running st g' →
  snake st = head :: neck :: rest →
  neck = add_dir head (reverse (direction st)) →
  KEY_TO_DIR !! k1 = Some p → perpendicular p (direction st) →
  KEY_TO_DIR !! k2 = Some (reverse (direction st)) →
  read_key cfg (keyboard i1) = Some k1 →
  PrimFloat.leb (tick st) (PrimFloat.sub (now i1) (last_tick st)) = false →
  read_key cfg (keyboard i2) = Some k2 →
  PrimFloat.leb (tick st) (PrimFloat.sub (now i2) (last_tick st)) = false →
  read_key cfg (keyboard i3) = None →
  PrimFloat.leb (tick st) (PrimFloat.sub (now i3) (last_tick st)) = true →
  run_game cfg fuel g t0 (inputs ++ [i1; i2; i3]) = Over (score st) Self.
Proof.
  intros Hrun Hsnake Hneck Hk1 Hperp Hk2 Hr1 Hw1 Hr2 Hw2 Hr3 Hdue.
  pose proof (run_game_inv _ _ _ _ _ _ _ Hrun) as Hinv.
  unfold run_game in *. rewrite game_loop_app, Hrun. simpl.
  rewrite loop_iter_wait; [|rewrite Hr1; by eapply mapped_key_not_quit|done].
  rewrite loop_iter_wait; simpl; [|rewrite Hr2; by eapply mapped_key_not_quit|done].
  rewrite Hr1, Hr2.
  assert (Hturn : steer (Some k2) (steer (Some k1) (direction st))
                  = reverse (direction st)).
  { unfold steer. rewrite Hk1, Hk2.
    pose proof (KEY_TO_DIR_is_dir _ _ Hk1) as Hp.
    destruct (inv_dir _ Hinv) as [Hd | [Hd | [Hd | Hd]]]; rewrite Hd in Hperp |- *;
      destruct Hp as [-> | [-> | [-> | ->]]]; try reflexivity; discriminate Hperp. }
  rewrite Hturn. unfold loop_iter. simpl. rewrite Hr3. simpl. rewrite Hdue.
  unfold tick_update. simpl. rewrite Hsnake, <- Hneck.
  assert (Hin : out_of_bounds neck = false).
  { apply in_grid_bounds. pose proof (inv_grid _ Hinv) as Hgrid.
    rewrite Hsnake in Hgrid. rewrite !Forall_cons in Hgrid. tauto. }
  rewrite Hin. rewrite bool_decide_eq_true_2; [done|].
  apply elem_of_cons. right. apply elem_of_cons. by left.
Qed.

Lemma two_turns_reverse_the_snake_witness :
  run_game posix_cfg 1 zero_rng 0%float
    [{| keyboard := typed "w"; now := 0.01%float |};
     {| keyboard := typed "a"; now := 0.02%float |};
     {| keyboard := no_keys; now := 1%float |}]
  = Over 0 Self.
Proof.
  apply (two_turns_reverse_the_snake posix_cfg 1 zero_rng
           (Nat.iter 2 rng_next zero_rng) 0%float [] start_state
           (15, 10) (14, 10) [(13, 10)] "w" "a" DIR_UP);
    vm_compute; reflexivity.
Defined.

(** ** [place_food]: the first free candidate *)

Lemma place_food_step (fuel : nat) (g : Rng) (s : gset Pos) :
  place_food (S fuel) g s =
    if decide (candidate g 0 ∉ s) then Some (candidate g 0, rng_next (rng_next g))
    else place_food fuel (rng_next (rng_next g)) s.
Proof. reflexivity. Qed.

Lemma candidate_shift (g : Rng) (n : nat) :
  candidate (rng_next (rng_next g)) n = candidate g (S n).
Proof.
  unfold candidate, rng_next.
  assert (He : S (S (2 * n)) = (2 * S n)%nat) by lia.
  assert (Ho : S (S (2 * n + 1)) = (2 * S n + 1)%nat) by lia.
  by rewrite He, Ho.
Qed.

Lemma place_food_returns_first_free (fuel : nat) (g g' : Rng) (s : gset Pos) (pos : Pos) :
  place_food fuel g s = Some (pos, g') →
  ∃ n : nat, (n < fuel)%nat ∧ pos = candidate g n ∧
             (∀ m : nat, (m < n)%nat → candidate g m ∈ s) ∧
             (∀ i : nat, g' i = g (2 * (n + 1) + i)%nat).
Proof.
  revert g. induction fuel as [|fuel IH]; intros g; [done|].
  rewrite place_food_step. case_decide as Hfree.
  - intros [= <- <-]. exists 0%nat. split; [lia|]. split; [done|].
    split; [intros m Hm; lia|]. intros i. reflexivity.
  - intros (n & Hn & Hpos & Hbefore & Hdraws)%IH. exists (S n).
    split; [lia|]. split; [by rewrite <- candidate_shift|]. split.
    + intros [|m] Hm.
      * done.
      * rewrite <- candidate_shift. apply Hbefore. lia.
    + intros i. rewrite Hdraws. unfold rng_next. f_equal. lia.
Qed.

Lemma place_food_finds_free (fuel : nat) (g : Rng) (s : gset Pos) (n : nat) :
  (n < fuel)%nat → candidate g n ∉ s →
  (∀ m : nat, (m < n)%nat → candidate g m ∈ s) →
  ∃ g', place_food fuel g s = Some (candidate g n, g').
Proof.
  revert g n. induction fuel as [|fuel IH]; intros g n Hn Hfree Hbefore; [lia|].
  rewrite place_food_step. destruct n as [|n].
  - rewrite decide_True by done. eauto.
  - rewrite decide_False by (intros Hnot; apply Hnot, Hbefore; lia).
    rewrite <- candidate_shift in Hfree |- *. apply IH; [lia|done|].
    intros m Hm. rewrite candidate_shift. apply Hbefore. lia.
Qed.

Lemma place_food_all_taken (fuel : nat) (g : Rng) (s : gset Pos) :
  (∀ n : nat, (n < fuel)%nat → candidate g n ∈ s) → place_food fuel g s = None.
Proof.
  revert g. induction fuel as [|fuel IH]; intros g Htaken; [done|].
  rewrite place_food_step.
  rewrite decide_False by (intros Hnot; apply Hnot, Htaken; lia).
  apply IH. intros n Hn. rewrite candidate_shift. apply Htaken. lia.
Qed.

(** X9: [place_food] returns the first candidate, in the order of the
    draws, that is no cell of the snake, and has then used two draws for
    each candidate tried; it returns whenever such a candidate comes within
    the fuel, and only then. *)
Theorem place_food_first_free (fuel : nat) (g : Rng) (s : gset Pos) :
  (∀ pos (g' : Rng),
     place_food fuel g s = Some (pos, g') →
     ∃ n : nat, (n < fuel)%nat ∧ pos = candidate g n ∧ (pos ∉ s) ∧
                (∀ m : nat, (m < n)%nat → candidate g m ∈ s) ∧
                (∀ i : nat, g' i = g (2 * (n + 1) + i)%nat)) ∧
  (∀ n : nat,
     (n < fuel)%nat → candidate g n ∉ s →
     (∀ m : nat, (m < n)%nat → candidate g m ∈ s) →
     ∃ g', place_food fuel g s = Some (candidate g n, g')) ∧
  ((∀ n : nat, (n < fuel)%nat → candidate g n ∈ s) → place_food fuel g s = None).
Proof.
  split; [|split].
  - intros pos g' Hfood.
    pose proof (place_food_sound _ _ _ _ _ Hfood) as [_ Hfree].
    apply place_food_returns_first_free in Hfood as (n & Hn & Hpos & Hbefore & Hdraws).
    by exists n.
  - apply place_food_finds_free.
  - apply place_food_all_taken.
Qed.

Lemma place_food_first_free_witness :
  ∃ g', place_food 2 (λ n, match n with 0%nat => 15 | 1%nat => 10 | _ => 7 end)
          (list_to_set initial_snake) = Some ((7, 7), g').
Proof.
  destruct (place_food_first_free 2
              (λ n, match n with 0%nat => 15 | 1%nat => 10 | _ => 7 end)
              (list_to_set initial_snake)) as (_ & Hfind & _).
  apply (Hfind 1%nat).
  - lia.
  - apply (bool_decide_unpack _). vm_compute. reflexivity.
  - intros m Hm. assert (m = 0%nat) as -> by lia.
    apply (bool_decide_unpack _). vm_compute. reflexivity.
Defined.

(** ** Steering *)

(** X10: whatever key is read, the direction after [steer] is again one of
    the four unit vectors and is never the opposite of the direction before;
    and reading the same key a second time changes nothing more. *)
Theorem steer_never_reverses (key : option string) (d : Pos) :
  is_dir d →
  is_dir (steer key d) ∧
  is_opposite (steer key d) d = false ∧
  steer key (steer key d) = steer key d.
Proof.
  intros Hd. split; [by apply steer_is_dir|].
  unfold steer. destruct key as [k|].
  - destruct (KEY_TO_DIR !! k) as [c|] eqn:Hk.
    + pose proof (KEY_TO_DIR_is_dir _ _ Hk) as Hc.
      destruct Hd as [-> | [-> | [-> | ->]]], Hc as [-> | [-> | [-> | ->]]];
        simpl; rewrite ?Hk; done.
    + rewrite ?Hk. by destruct Hd as [-> | [-> | [-> | ->]]].
  - by destruct Hd as [-> | [-> | [-> | ->]]].
Qed.

Lemma steer_never_reverses_witness :
  is_opposite (steer (Some "a"%string) DIR_RIGHT) DIR_RIGHT = false.
Proof.
  apply (steer_never_reverses (Some "a"%string) DIR_RIGHT).
  unfold is_dir. tauto.
Defined.

(** ** The input reader *)

(** X11: on a platform with [select], a poll returns no key exactly when
    the first [select] reports nothing to read.  Otherwise it returns what
    [read(1)] returns when that is not the escape character (the empty
    string at the end of input); after an escape character it reads on only
    as far as [select] reports more, so it returns the escape character
    alone when the second [select] reports nothing; and a key never has
    more than three characters. *)
Theorem posix_poll_follows_select (cfg : Platform) (kb : Keyboard) :
  os_name cfg ≠ "nt"%string → select cfg = true →
  (read_key cfg kb = None ↔ ready1 kb = false) ∧
  (ready1 kb = true → char1 kb ≠ Some ESC →
     read_key cfg kb = Some (read_str (char1 kb))) ∧
  (ready1 kb = true → char1 kb = Some ESC → ready2 kb = false →
     read_key cfg kb = Some (String ESC EmptyString)) ∧
  (∀ key, read_key cfg kb = Some key → (String.length key ≤ 3)%nat).
Proof.
  intros Hos Hsel. unfold read_key, read_key_posix. rewrite Hsel.
  destruct (String.eqb_spec (os_name cfg) "nt") as [|_]; [done|]. simpl.
  destruct (ready1 kb); simpl; [|done].
  destruct (char1 kb) as [c1|]; simpl.
  - destruct (Ascii.eqb_spec c1 ESC) as [->|Hne].
    + change (String.eqb (String ESC EmptyString) (String ESC EmptyString)) with true.
      cbn [negb].
      destruct (ready2 kb), (char2 kb) as [c2|], (char3 kb) as [c3|], (ready3 kb);
        cbn [read_str andb];
        repeat match goal with
               | |- context [String.eqb ?a ?b] => destruct (String.eqb a b)
               end;
        cbn [andb]; (split; [done|]); (split; [by intros _ []|]); (split; [done|]);
        intros key [= <-]; simpl; lia.
    + replace (String.eqb (String c1 EmptyString) (String ESC EmptyString)) with false.
      * simpl. split; [done|]. split; [done|]. split; [by intros _ [= ->]|].
        intros key [= <-]. simpl. lia.
      * symmetry. apply String.eqb_neq. by intros [= ->].
  - split; [done|]. split; [done|]. split; [done|]. intros key [= <-]. simpl. lia.
Qed.

Lemma posix_poll_follows_select_witness :
  read_key posix_cfg
    {| console := None; ready1 := true; char1 := Some ESC;
       ready2 := false; char2 := Some "["%char; ready3 := false; char3 := Some "A"%char |}
  = Some (String ESC EmptyString).
Proof.
  destruct (posix_poll_follows_select posix_cfg
              {| console := None; ready1 := true; char1 := Some ESC;
                 ready2 := false; char2 := Some "["%char;
                 ready3 := false; char3 := Some "A"%char |})
    as (_ & _ & Hesc & _).
  - discriminate.
  - reflexivity.
  - apply Hesc; reflexivity.
Defined.

(** X12: on Windows with [msvcrt], every key that a poll returns is a
    single character below 128: the first byte read, or the second one after
    a prefix byte [0x00] or [0xe0].  When that byte is 128 or above, decoding
    fails and the poll returns no key instead of raising. *)
Theorem windows_key_is_one_ascii_char (cfg : Platform) (kb : Keyboard) :
  os_name cfg = "nt"%string → msvcrt cfg = true →
  (console kb = None → read_key cfg kb = None) ∧
  (∀ c1 c2, console kb = Some (c1, c2) →
     let code :=
       if bool_decide (c1 ∈ [ascii_of_nat 0; ascii_of_nat 224]) then c2 else c1 in
     read_key cfg kb =
       if (nat_of_ascii code <? 128)%nat then Some (String code EmptyString) else None) ∧
  (∀ key, read_key cfg kb = Some key →
     ∃ c, key = String c EmptyString ∧ (nat_of_ascii c < 128)%nat).
Proof.
  intros Hos Hms. unfold read_key, read_key_windows. rewrite Hos, Hms. simpl.
  split; [by intros ->|]. split.
  - intros c1 c2 ->. simpl. by case_bool_decide.
  - intros key. destruct (console kb) as [[c1 c2]|]; [|done].
    case_bool_decide; unfold decode;
      destruct (Nat.ltb_spec (nat_of_ascii c2) 128),
               (Nat.ltb_spec (nat_of_ascii c1) 128); intros [= <-]; eauto.
Qed.

Lemma windows_key_is_one_ascii_char_witness :
  read_key windows_cfg
    {| console := Some (ascii_of_nat 224, ascii_of_nat 233);
       ready1 := false; char1 := None; ready2 := false; char2 := None;
       ready3 := false; char3 := None |} = None.
Proof.
  destruct (windows_key_is_one_ascii_char windows_cfg
              {| console := Some (ascii_of_nat 224, ascii_of_nat 233);
       ready1 := false; char1 := None; ready2 := false; char2 := None;
       ready3 := false; char3 := None |})
    as (_ & Hread & _); [reflexivity..|].
  apply (Hread (ascii_of_nat 224) (ascii_of_nat 233)). reflexivity.
Defined.

Lemma two_char_key_unmapped (c1 c2 : ascii) :
  KEY_TO_DIR !! String c1 (String c2 EmptyString) = None.
Proof.
  destruct (KEY_TO_DIR !! _) as [d|] eqn:Hk; [|done]. exfalso.
  apply KEY_TO_DIR_keys in Hk. unfold spec_key_table, ansi in Hk.
  repeat (apply elem_of_cons in Hk as [[=]|Hk]).
  by apply elem_of_nil in Hk.
Qed.

(** X13: an escape sequence cut short is ignored.  When the first
    character read is the escape character and the second [select] reports
    nothing, or the second character is not a bracket, or the third
    [select] reports nothing, the poll returns the escape character alone
    or with the second character; that key is in no entry of the key table
    and is no quit key, and the iteration does what it does with no key. *)
Theorem partial_escape_is_ignored
    (cfg : Platform) (fuel : nat) (inp inp' : Input) (g : Rng) (st : State) :
  os_name cfg ≠ "nt"%string → select cfg = true →
  ready1 (keyboard inp) = true → char1 (keyboard inp) = Some ESC →
  ready2 (keyboard inp) = false ∨ char2 (keyboard inp) ≠ Some "["%char
    ∨ ready3 (keyboard inp) = false →
  read_key cfg (keyboard inp') = None → now inp' = now inp →
  read_key cfg (keyboard inp)
    = Some (String ESC (if ready2 (keyboard inp)
                        then read_str (char2 (keyboard inp)) else EmptyString)) ∧
  KEY_TO_DIR !! String ESC (if ready2 (keyboard inp)
                            then read_str (char2 (keyboard inp)) else EmptyString) = None ∧
  loop_iter cfg fuel inp g st = loop_iter cfg fuel inp' g st.
Proof.
  intros Hos Hsel Hr1 Hc1 Hcut Hnone Hnow.
  set (key := String ESC (if ready2 (keyboard inp)
                          then read_str (char2 (keyboard inp)) else EmptyString)).
  assert (Hread : read_key cfg (keyboard inp) = Some key).
  { unfold key, read_key, read_key_posix. rewrite Hsel, Hr1, Hc1.
    destruct (String.eqb_spec (os_name cfg) "nt") as [|_]; [done|]. simpl.
    change (String.eqb (String ESC EmptyString) (String ESC EmptyString)) with true.
    simpl. destruct (ready2 (keyboard inp)); [|done].
    destruct (String.eqb_spec (read_str (char2 (keyboard inp))) "[") as [Hb|_];
      [|done].
    destruct (ready3 (keyboard inp)); [|done]. exfalso.
    destruct Hcut as [?|[Hc2|?]]; [done| |done]. apply Hc2.
    destruct (char2 (keyboard inp)); [|done]. by injection Hb as ->. }
  assert (Hmap : KEY_TO_DIR !! key = None).
  { unfold key. destruct (ready2 (keyboard inp)); [|by vm_compute].
    destruct (char2 (keyboard inp)) as [c2|]; [|by vm_compute].
    apply two_char_key_unmapped. }
  split; [done|]. split; [done|].
  assert (Hq : key_is_quit (Some key) = false).
  { apply bool_decide_eq_false_2. unfold QUIT_KEYS, key.
    intros Hq. repeat (apply elem_of_cons in Hq as [[=]|Hq]).
    by apply elem_of_nil in Hq. }
  unfold loop_iter. rewrite Hread, Hnone, Hq, Hnow. unfold steer. by rewrite Hmap.
Qed.

Lemma partial_escape_is_ignored_witness :
  loop_iter posix_cfg 1 {| keyboard := typed ESC; now := 1%float |}
    zero_rng start_state
  = loop_iter posix_cfg 1 {| keyboard := no_keys; now := 1%float |}
      zero_rng start_state.
Proof.
  apply (partial_escape_is_ignored posix_cfg 1
           {| keyboard := typed ESC; now := 1%float |}
           {| keyboard := no_keys; now := 1%float |} zero_rng start_state).
  - discriminate.
  - reflexivity.
  - reflexivity.
  - reflexivity.
  - left. reflexivity.
  - reflexivity.
  - reflexivity.
Defined.

(** ** The frame *)

Lemma get_string_of_list (l : list ascii) (i : nat) :
  String.get i (string_of_list_ascii l) = l !! i.
Proof.
  revert i. induction l as [|c l IH]; intros i; simpl; [done|].
  destruct i as [|i]; [done|]. apply IH.
Qed.

Lemma length_string_of_list (l : list ascii) :
  String.length (string_of_list_ascii l) = length l.
Proof. induction l as [|c l IH]; simpl; [done|]. by rewrite IH. Qed.

Lemma glyph_cases (head : Pos) (snake : list Pos) (food pos : Pos) :
  let c := glyph head (list_to_set snake) food pos in
  (c = "O"%char ↔ pos = head) ∧
  (c = "o"%char ↔ pos ≠ head ∧ pos ∈ snake) ∧
  (c = "*"%char ↔ pos ≠ head ∧ (pos ∉ snake) ∧ pos = food) ∧
  (c = " "%char ↔ pos ≠ head ∧ (pos ∉ snake) ∧ pos ≠ food).
Proof.
  unfold glyph. repeat case_bool_decide; rewrite ?elem_of_list_to_set in *; simpl;
    repeat split; intros; try done; tauto.
Qed.

Lemma render_rows_lookup (snake : list Pos) (food : Pos) (score : Z)
    (rows : list string) (hd : Pos) (body : list Pos) (j : nat) :
  snake = hd :: body → render_rows snake food score = Some rows →
  (j < Z.to_nat HEIGHT)%nat →
  rows !! S j = Some (render_line hd (list_to_set snake) food (Z.of_nat j)).
Proof.
  intros -> Hrows Hj. unfold render_rows in Hrows.
  apply (inj Some) in Hrows. subst rows.
  rewrite (lookup_app_r [_]) by (simpl; lia).
  replace (S j - length [str_mul "#" (WIDTH + 2)])%nat with j by (simpl; lia).
  rewrite lookup_app_l by (rewrite length_fmap, length_seqZ; lia).
  rewrite list_lookup_fmap, lookup_seqZ_lt by lia. reflexivity.
Qed.

(** X14: the frame that [render] draws for a non-empty snake has
    [HEIGHT + 3] rows: a border of [WIDTH + 2] hashes, one row of
    [WIDTH + 2] characters for each line of the grid, beginning and ending
    with a hash, the border again, and the score line. *)
Theorem frame_layout (snake : list Pos) (food : Pos) (score : Z) (rows : list string) :
  render_rows snake food score = Some rows →
  length rows = Z.to_nat (HEIGHT + 3) ∧
  rows !! 0%nat = Some (string_of_list_ascii (replicate (Z.to_nat (WIDTH + 2)) "#"%char)) ∧
  rows !! Z.to_nat (HEIGHT + 1) = rows !! 0%nat ∧
  rows !! Z.to_nat (HEIGHT + 2)
    = Some ("Score: " +:+ pretty score +:+ "  (WASD / arrows, Q to quit)") ∧
  (∀ j : nat, (j < Z.to_nat HEIGHT)%nat →
     ∃ line, rows !! S j = Some line ∧
             String.length line = Z.to_nat (WIDTH + 2) ∧
             String.get 0 line = Some "#"%char ∧
             String.get (Z.to_nat (WIDTH + 1)) line = Some "#"%char).
Proof.
  intros Hrows. destruct snake as [|hd body]; [discriminate Hrows|].
  split; [|split; [|split; [|split]]]; try (by injection Hrows as <-).
  intros j Hj. eexists. split; [by eapply render_rows_lookup|].
  unfold render_line. rewrite length_string_of_list, !get_string_of_list.
  split; [by rewrite !length_app, length_fmap, length_seqZ|]. split; [done|].
  rewrite (lookup_app_r [_]) by (vm_compute; lia).
  rewrite lookup_app_r by (rewrite length_fmap, length_seqZ; vm_compute; lia).
  by rewrite length_fmap, length_seqZ.
Qed.

Lemma frame_layout_witness :
  ∃ rows, render_rows (snake start_state) (0, 0) 0 = Some rows ∧ length rows = 23%nat.
Proof.
  eexists. split; [reflexivity|].
  apply (frame_layout (snake start_state) (0, 0) 0). reflexivity.
Defined.

(** X15: in the frame, the character of column [i] of grid line [j] is [O]
    exactly on the head, [o] exactly on the other cells of the snake, [*]
    exactly on the food when the snake is not on it, and a blank on every
    other cell. *)
Theorem frame_shows_the_board
    (snake : list Pos) (food : Pos) (score : Z) (rows : list string)
    (hd : Pos) (body : list Pos) (i j : nat) :
  snake = hd :: body →
  render_rows snake food score = Some rows →
  (i < Z.to_nat WIDTH)%nat → (j < Z.to_nat HEIGHT)%nat →
  ∃ line c,
    rows !! S j = Some line ∧ String.get (S i) line = Some c ∧
    (c = "O"%char ↔ (Z.of_nat i, Z.of_nat j) = hd) ∧
    (c = "o"%char ↔ (Z.of_nat i, Z.of_nat j) ≠ hd ∧ (Z.of_nat i, Z.of_nat j) ∈ snake) ∧
    (c = "*"%char ↔ ((Z.of_nat i, Z.of_nat j) ∉ snake) ∧ (Z.of_nat i, Z.of_nat j) = food) ∧
    (c = " "%char ↔ ((Z.of_nat i, Z.of_nat j) ∉ snake) ∧ (Z.of_nat i, Z.of_nat j) ≠ food).
Proof.
  intros Hsnake Hrows Hi Hj.
  exists (render_line hd (list_to_set snake) food (Z.of_nat j)),
         (glyph hd (list_to_set snake) food (Z.of_nat i, Z.of_nat j)).
  split; [by eapply render_rows_lookup|]. split.
  - unfold render_line. rewrite get_string_of_list.
    rewrite (lookup_app_r [_]) by (simpl; lia).
    replace (S i - length ["#"%char])%nat with i by (simpl; lia).
    rewrite lookup_app_l by (rewrite length_fmap, length_seqZ; lia).
    rewrite list_lookup_fmap, lookup_seqZ_lt by lia. reflexivity.
  - destruct (glyph_cases hd snake food (Z.of_nat i, Z.of_nat j))
      as (HO & Ho & Hstar & Hblank).
    assert (Hhd : hd ∈ snake) by (rewrite Hsnake; apply elem_of_cons; by left).
    split; [done|]. split; [done|]. split.
    + rewrite Hstar. split; [tauto|]. intros [Hout Hfood].
      split; [|done]. by intros <-.
    + rewrite Hblank. split; [tauto|]. intros [Hout Hfood].
      split; [|done]. by intros <-.
Qed.

Lemma frame_shows_the_board_witness :
  ∃ line, render_line (15, 10) (list_to_set (snake start_state)) (0, 0) 10 = line ∧
          String.get 16 line = Some "O"%char.
Proof.
  destruct (frame_shows_the_board (snake start_state) (0, 0) 0
              (default [] (render_rows (snake start_state) (0, 0) 0))
              (15, 10) [(14, 10); (13, 10)] 15 10 eq_refl eq_refl)
    as (line & c & Hline & Hget & HO & _).
  - vm_compute. lia.
  - vm_compute. lia.
  - exists line. split.
    + symmetry. injection Hline as <-. reflexivity.
    + rewrite Hget. f_equal. by apply HO.
Defined.

(** ** An update that eats *)

(** X16: when an update lets the session go on and the next head is the
    food, the snake grows at the head by the cell of the food and keeps its
    tail, the score goes up by one, the tick interval is recomputed from the
    new score, and the new food is a grid cell that is neither on the grown
    snake nor where the old food was. *)
Theorem eating_move_grows_snake
    (fuel : nat) (g g' : Rng) (st st' : State) (head : Pos) (body : list Pos) :
  snake st = head :: body →
  tick_update fuel g st = Running st' g' →
  add_dir head (direction st) = food st →
  snake st' = food st :: snake st ∧
  last (snake st') = last (snake st) ∧
  score st' = score st + 1 ∧
  tick st' = tick_interval (score st + 1) ∧
  in_grid (food st') ∧ (food st' ∉ snake st') ∧ food st' ≠ food st ∧
  direction st' = direction st.
Proof.
  intros Hsnake Hrun Heat.
  apply tick_update_running in Hrun as (head' & body' & Hsnake' & _ & _ & Hcase).
  rewrite Hsnake in Hsnake'. injection Hsnake' as <- <-.
  destruct Hcase as [(_ & Hfood & Hst')|(Hne & _)]; [|done].
  apply place_food_sound in Hfood as [Hin Hfree].
  rewrite elem_of_list_to_set in Hfree. rewrite Heat in Hfree, Hst'.
  rewrite Hst'. simpl. split; [done|]. split; [by rewrite Hsnake|].
  split; [done|]. split; [done|]. split; [done|]. split; [done|].
  split; [|done]. intros Heq. apply Hfree. rewrite Heq. apply elem_of_cons. by left.
Qed.

Lemma eating_move_grows_snake_witness :
  snake fed_state = (16, 10) :: initial_snake ∧ score fed_state = 0 + 1.
Proof.
  destruct (eating_move_grows_snake 1 (Nat.iter 2 rng_next feeding_rng)
              (Nat.iter 4 rng_next feeding_rng)
              {| snake := initial_snake; direction := DIR_RIGHT; score := 0;
                 food := (16, 10); last_tick := 1%float; tick := BASE_TICK |}
              fed_state (15, 10) [(14, 10); (13, 10)])
    as (Hsnake & _ & Hscore & _).
  - reflexivity.
  - vm_compute. reflexivity.
  - reflexivity.
  - split; [exact Hsnake|exact Hscore].
Defined.

(** ** The speed of the game *)

Lemma tick_schedule_table :
  Forall (λ s, PrimFloat.ltb (tick_interval (s + 1)) (tick_interval s) = true ∧
               PrimFloat.ltb MIN_TICK (tick_interval s) = true)
         (seqZ 0 35) ∧
  Forall (λ s, PrimFloat.eqb (tick_interval s) MIN_TICK = true)
         (seqZ 35 (MAX_SCORE + 1 - 35)).
Proof. split; apply (bool_decide_unpack _); vm_compute; reflexivity. Qed.

(** X17: each of the first 35 points makes the tick interval strictly
    shorter, and it stays above 0.05; from 35 points on, for every score
    that a session can have, the interval is 0.05. *)
Theorem speed_is_capped_at_35_points (s : Z) :
  0 ≤ s ≤ MAX_SCORE →
  (s < 35 →
     PrimFloat.ltb (tick_interval (s + 1)) (tick_interval s) = true ∧
     PrimFloat.ltb 0.05%float (tick_interval s) = true) ∧
  (35 ≤ s → PrimFloat.eqb (tick_interval s) 0.05%float = true).
Proof.
  intros Hs. destruct tick_schedule_table as [Hfast Hcap].
  rewrite Forall_forall in Hfast, Hcap. split.
  - intros Hlt. apply (Hfast s), elem_of_seqZ. lia.
  - intros Hge. apply (Hcap s), elem_of_seqZ. lia.
Qed.

Lemma speed_is_capped_at_35_points_witness :
  PrimFloat.eqb (tick_interval 35) 0.05%float = true.
Proof.
  apply (speed_is_capped_at_35_points 35); [vm_compute; split; discriminate|lia].
Defined.

(** ** Playing again *)

Lemma play_replays (cfg : Platform) (envs : list SessionEnv) (i : nat) (env : SessionEnv) :
  envs !! i = Some env →
  (S i < sessions_played (play cfg envs))%nat →
  env_choice env ∈ ["y"%string; "yes"%string] ∧
  ∃ final r,
    run_game cfg (env_fuel env) (env_rng env) (env_t0 env) (env_inputs env)
      = Over final r ∧ r ≠ Quit.
Proof.
  revert i. induction envs as [|e rest IH]; intros i Hlook; [done|].
  cbn [play sessions_played].
  destruct (run_game cfg (env_fuel e) (env_rng e) (env_t0 e) (env_inputs e))
    as [st g|final r| |] eqn:Hrun; cbn [sessions_played]; try lia.
  destruct r; cbn [sessions_played]; try lia;
    (case_bool_decide as Hyes; cbn [sessions_played]; [|lia]);
    (destruct i as [|i];
      [injection Hlook as <-; intros _; split; [done|]; by eauto
      |intros Hplayed; apply (IH i); [done|lia]]).
Qed.

Lemma play_sessions_bound (cfg : Platform) (envs : list SessionEnv) :
  (sessions_played (play cfg envs) ≤ length envs)%nat.
Proof.
  induction envs as [|e rest IH]; [done|]. cbn [play sessions_played length].
  destruct (run_game _ _ _ _ _) as [st g|final r| |]; cbn [sessions_played]; try lia.
  destruct r; cbn [sessions_played]; try lia;
    case_bool_decide; cbn [sessions_played]; lia.
Qed.

(** X19: [main] plays another session only after a session that ended by
    the wall or the snake and an answer [y] or [yes]: every session but the
    last one played ended that way and was answered so; a session ended by
    the quit key is the last. *)
Theorem replay_needs_yes (cfg : Platform) (envs : list SessionEnv) (i : nat)
    (env : SessionEnv) :
  envs !! i = Some env →
  (S i < sessions_played (main cfg envs))%nat →
  env_choice env ∈ ["y"%string; "yes"%string] ∧
  (∃ final r,
     run_game cfg (env_fuel env) (env_rng env) (env_t0 env) (env_inputs env)
       = Over final r ∧ r ≠ Quit) ∧
  (sessions_played (main cfg envs) ≤ length envs)%nat.
Proof.
  intros Hlook. unfold main.
  destruct (String.eqb (os_name cfg) "nt" && negb (msvcrt cfg)).
  - simpl. lia.
  - intros Hplayed. destruct (play_replays cfg envs i env Hlook Hplayed) as [Hyes Hover].
    split; [done|]. split; [done|]. apply play_sessions_bound.
Qed.

Lemma replay_needs_yes_witness :
  "yes"%string ∈ ["y"%string; "yes"%string] ∧
  (sessions_played
     (main bare_posix_cfg
        [{| env_fuel := 1; env_rng := zero_rng; env_t0 := 0%float;
            env_inputs := blind_inputs; env_choice := "yes" |}; blind_env]) ≤ 2)%nat.
Proof.
  destruct (replay_needs_yes bare_posix_cfg
              [{| env_fuel := 1; env_rng := zero_rng; env_t0 := 0%float;
                  env_inputs := blind_inputs; env_choice := "yes" |}; blind_env]
              0 {| env_fuel := 1; env_rng := zero_rng; env_t0 := 0%float;
                   env_inputs := blind_inputs; env_choice := "yes" |})
    as (Hyes & _ & Hbound).
  - reflexivity.
  - vm_compute. lia.
  - split; [exact Hyes|exact Hbound].
Defined.

(** ** The walls *)

(** X20: an update ends the session with [Wall] exactly when the next head
    is outside the grid, and the score returned is the current one; the wall
    is tested first, before the snake and the food. *)
Theorem wall_collision_ends_session
    (fuel : nat) (g : Rng) (st : State) (head : Pos) (body : list Pos) (final : Z) :
  snake st = head :: body →
  (tick_update fuel g st = Over final Wall ↔
   ¬ in_grid (add_dir head (direction st)) ∧ final = score st).
Proof.
  intros Hsnake. unfold tick_update. rewrite Hsnake.
  destruct (out_of_bounds _) eqn:Hout.
  - assert (Hnot : ¬ in_grid (add_dir head (direction st)))
      by (rewrite in_grid_bounds; congruence).
    split; [by intros [= <-]|by intros [_ ->]].
  - apply in_grid_bounds in Hout. split; [|tauto].
    repeat case_bool_decide; try done.
    by destruct (place_food _ _ _) as [[? ?]|].
Qed.

Lemma wall_collision_ends_session_witness :
  tick_update 0 zero_rng
    {| snake := [(29, 10); (28, 10); (27, 10)]; direction := DIR_RIGHT; score := 0;
       food := (0, 0); last_tick := 0%float; tick := BASE_TICK |} = Over 0 Wall.
Proof.
  apply (wall_collision_ends_session 0 zero_rng
           {| snake := [(29, 10); (28, 10); (27, 10)]; direction := DIR_RIGHT;
              score := 0; food := (0, 0); last_tick := 0%float; tick := BASE_TICK |}
           (29, 10) [(28, 10); (27, 10)] 0 eq_refl).
  split; [|reflexivity]. unfold in_grid, WIDTH. simpl. lia.
Defined.
